(** * Component base class (app/scripts/lib/component.js)

    A shallow embedding of the [Component] class and of the small part of
    the JavaScript run time it touches: strings, property maps, references
    to mutable objects, the [__proto__] accessor, function values with
    [Function.prototype.bind], exceptions, and calls into functions whose
    bodies live elsewhere (the mediator, user callbacks).

    Modelling conventions.
    - A string is a sequence of UTF-16 code units, as in the language; the
      Unicode case mapping behind [String.prototype.toUpperCase] is a table
      of the language, not of the repository, and is a parameter.
    - A JavaScript object used as a dictionary is a finite map from property
      names to values ([gmap jsstring value]); objects are heap cells reached
      through references, so aliasing and in-place updates are visible.
    - An assignment [o[k] = v] creates or overwrites an own property, except
      under the name [__proto__] on an object that inherits the accessor of
      [Object.prototype] and sees no data property of that name: the setter
      then runs, which changes the prototype when [v] is an object or [null]
      and does nothing otherwise.
    - Numbers are integers.
    - A function value is either a plain function, named by an identifier
      whose behaviour is supplied by the environment ([run]), or the result
      of [bind] applied to another function value; function values are
      compared by structure.
    - [defaultData()] is an object literal, as in the class and in the
      comment that tells subclasses how to override it: every call builds a
      new object. [jQuery] is the external library, a parameter: the wrapper
      object it builds around its argument.
    - The requests made to the host's [setTimeout] are a queue kept in the
      state; the host's clock and event loop, which decide when a request
      fires, are described after the specification. *)

From Stdlib Require Import ZArith NArith String Ascii List Lia.
From Stdlib.Strings Require Import Byte.
From stdpp Require Import base numbers countable option list gmap fin_maps pretty.

Local Open Scope list_scope.

(** ** Strings *)

(** A JavaScript string: its UTF-16 code units. *)
Record jsstring : Type := JS { units : list N }.

(** String literals of this file are ASCII: one code unit per character. *)
Definition jsstring_of_bytes (bs : list Byte.byte) : option jsstring :=
  if forallb (fun b => (Byte.to_N b <? 128)%N) bs
  then Some (JS (List.map Byte.to_N bs))
  else None.

Definition bytes_of_jsstring (s : jsstring) : option (list Byte.byte) :=
  mapM Byte.of_N (units s).

Declare Scope js_scope.
Delimit Scope js_scope with js.
Bind Scope js_scope with jsstring.
String Notation jsstring jsstring_of_bytes bytes_of_jsstring : js_scope.
Local Open Scope js_scope.

#[global] Instance jsstring_eq_dec : EqDecision jsstring.
Proof. solve_decision. Defined.

#[global] Instance jsstring_countable : Countable jsstring :=
  inj_countable' units JS (fun s => match s with JS _ => eq_refl end).

(** The decimal spelling of an array index, as a property name. *)
Definition index_key (i : nat) : jsstring :=
  JS (List.map N_of_ascii (list_ascii_of_string (pretty i))).

(** ** The three string operations of [_configureData] *)

Fixpoint starts_with (p s : list N) : bool :=
  match p, s with
  | [], _ => true
  | a :: p', c :: s' => N.eqb a c && starts_with p' s'
  | _ :: _, [] => false
  end.

(** [/^data-/.test(name)] *)
Definition test_data_prefix (name : jsstring) : bool :=
  starts_with (units "data-") (units name).

(** [name.substr(n)]: the suffix that starts at index [n]. *)
Definition substr (n : nat) (s : jsstring) : jsstring := JS (drop n (units s)).

(** Line terminators are the code units the regular expression atom [.]
    does not match: LF, CR, U+2028 and U+2029. *)
Definition is_line_terminator (c : N) : bool :=
  (N.eqb c 10 || N.eqb c 13 || N.eqb c 8232 || N.eqb c 8233)%bool.

(** [s.replace(/-(.)/g, ($0, $1) => $1.toUpperCase())]: a left-to-right scan;
    a hyphen followed by a code unit that [.] matches is replaced, together
    with that unit, by what [toUpperCase] makes of the unit, and the scan
    resumes after it. The pattern has no [u] flag: [.] takes one code unit. *)
Fixpoint replace_hyphens (toUpperCase : N → list N) (s : list N) : list N :=
  match s with
  | [] => []
  | c :: rest =>
      if N.eqb c 45 then
        match rest with
        | d :: rest' =>
            if is_line_terminator d then c :: replace_hyphens toUpperCase rest
            else toUpperCase d ++ replace_hyphens toUpperCase rest'
        | [] => [c]
        end
      else c :: replace_hyphens toUpperCase rest
  end.

(** [attr.name.substr(5).replace(...)] *)
Definition camelCaseName (toUpperCase : N → list N) (name : jsstring) : jsstring :=
  JS (replace_hyphens toUpperCase (units (substr 5 name))).

(** ** Values, objects and the heap *)

Definition loc := positive.

Inductive value : Type :=
  | VUndefined
  | VNull
  | VBool (b : bool)
  | VNum (n : Z)
  | VStr (s : jsstring)
  | VObj (l : loc)
  | VFun (f : fn)
with fn : Type :=
  | Plain (id : jsstring)
  | Bound (target : fn) (boundThis : value).

(** A DOM attribute: [attr.name], [attr.value]. *)
Record attr : Type := Attr { attr_name : jsstring; attr_value : jsstring }.

(** An ordinary object: the properties it owns (all enumerable: they come
    from literals and assignments), the data properties it sees through its
    prototype chain, and whether that chain ends in [Object.prototype], whose
    accessor [__proto__] the object then inherits. *)
Record object : Type := Object {
  own : gmap jsstring value;
  inherited : gmap jsstring value;
  proto_accessor : bool
}.

(** A heap cell is an ordinary object or a DOM element, of which only the
    ordered attribute list ([el.attributes]) is modelled. *)
Inductive cell : Type :=
  | CObject (o : object)
  | CNode (attributes : list attr).

(** What a running function can end with besides a value. *)
Inductive thrown : Type :=
  | TypeError
  | Thrown (v : value).

(** One call made by the component into a function value. *)
Record call : Type := Call {
  callee : fn;
  receiver : value;
  arguments : list value
}.

(** A pending [setTimeout] request. *)
Record timer : Type := Timer { timer_callback : value; timer_delay : value }.

(** An object literal [{...}]. *)
Definition literal (props : gmap jsstring value) : cell :=
  CObject (Object props ∅ true).

(** [o[k]] for an ordinary object: own property first, then the chain. *)
Definition object_get (o : object) (k : jsstring) : value :=
  match own o !! k with
  | Some v => v
  | None => default VUndefined (inherited o !! k)
  end.

(** Creation or overwriting of the own property [k]. *)
Definition object_set (o : object) (k : jsstring) (v : value) : object :=
  Object (<[k := v]> (own o)) (inherited o) (proto_accessor o).

(** The object sees a data property named [k], its own or on its chain. *)
Definition sees (o : object) (k : jsstring) : bool :=
  bool_decide (is_Some (own o !! k)) || bool_decide (is_Some (inherited o !! k)).

(** An assignment under the name [k] runs the [__proto__] setter of
    [Object.prototype]: the name is [__proto__], the accessor is inherited,
    and no data property shadows it. *)
Definition runs_proto_setter (o : object) (k : jsstring) : bool :=
  bool_decide (k = "__proto__") && proto_accessor o && negb (sees o k).

(** What an object sees once [p] is its prototype: the data properties of
    [p] and of its chain, and the accessor if [p] inherits it. The setter
    ignores a [p] that is neither an object nor [null]. The members of
    functions and of DOM elements are not data properties the class reads. *)
Definition chain_of (h : gmap loc cell) (p : value)
  : option (gmap jsstring value * bool) :=
  match p with
  | VNull => Some (∅, false)
  | VObj l =>
      match h !! l with
      | Some (CObject o) => Some (own o ∪ inherited o, proto_accessor o)
      | Some (CNode _) => Some (∅, true)
      | None => None
      end
  | VFun _ => Some (∅, true)
  | _ => None
  end.

(** [o[k] = v] on an ordinary object. The assignments of the class have a
    new object or the instance as target, of which no prototype is made, so
    that the setter meets no prototype cycle. *)
Definition object_put (h : gmap loc cell) (o : object) (k : jsstring) (v : value)
  : object :=
  if runs_proto_setter o k then
    match chain_of h v with
    | Some (members, accessor) => Object (own o) members accessor
    | None => o
    end
  else object_set o k v.

(** The own enumerable properties of the characters of a string, as
    [Object("ab")] exposes them: ["0"], ["1"], ... *)
Definition string_props (s : jsstring) : gmap jsstring value :=
  list_to_map (imap (fun i c => (index_key i, VStr (JS [c]))) (units s)).

Module Component.

Section WithEnvironment.

(** State of everything outside the heap that functions defined elsewhere
    may keep (the mediator's registry, for instance). *)
Context {H : Type}.

(** Behaviour of the plain functions: identifier, [this], arguments and the
    state they may read and change; they return a value or throw one. *)
Variable run :
  jsstring → value → list value → gmap loc cell * H →
  (value + value) * (gmap loc cell * H).

(** [String.prototype.toUpperCase] on a string of one code unit: the
    Unicode case mapping, which may give several units. *)
Variable toUpperCase : N → list N.

(** The ambient [jQuery] global, when defined: the wrapper object it builds
    around its argument. *)
Variable jQuery : option (value → object).

(** The members an instance sees through its prototype chain (the methods
    of the concrete class and of [Component]). *)
Variable proto : gmap jsstring value.

(** The object literal returned by the class's [defaultData()], each call
    building a fresh object; [None] when the member is missing, which is
    the [{}] branch of [_configureData]. *)
Variable defaultData : option (gmap jsstring value).

Record world : Type := World {
  heap : gmap loc cell;
  ext : H;
  calls : list call;
  timers : list timer
}.

Inductive outcome (A : Type) : Type :=
  | Ok (a : A) (w : world)
  | Throw (e : thrown) (w : world).
Arguments Ok {A} a w.
Arguments Throw {A} e w.

(** Computations: state passing with exceptions. *)
Definition M (A : Type) : Type := world → outcome A.

#[local] Instance M_ret : MRet M := fun A a w => Ok a w.
#[local] Instance M_bind : MBind M := fun A B k c w =>
  match c w with
  | Ok a w' => k a w'
  | Throw e w' => Throw e w'
  end.

Definition set_heap (h : gmap loc cell) (w : world) : world :=
  World h (ext w) (calls w) (timers w).

Definition throw {A : Type} (e : thrown) : M A := fun w => Throw e w.
Definition get_heap : M (gmap loc cell) := fun w => Ok (heap w) w.
Definition put_heap (h : gmap loc cell) : M unit :=
  fun w => Ok tt (set_heap h w).

(** Allocation of a new cell at an unused location. *)
Definition alloc (c : cell) : M loc := fun w =>
  let l := fresh (dom (heap w)) in
  Ok l (set_heap (<[l := c]> (heap w)) w).

(** [v[k]]: reading a property of [undefined] or [null] throws; DOM
    elements, functions and primitives have none of the properties the
    class asks for by name. Under the name [__proto__] an object that sees
    no data property of that name gives, in the language, its prototype
    object, which is no value of a state: the statements on [bind] that
    rest on such a read leave that name aside. *)
Definition get_prop (v : value) (k : jsstring) : M value :=
  match v with
  | VUndefined | VNull => throw TypeError
  | VObj l =>
      h ← get_heap;
      match h !! l with
      | Some (CObject o) => mret (object_get o k)
      | _ => mret VUndefined
      end
  | _ => mret VUndefined
  end.

(** [this[k] = v] on the object at [l]. *)
Definition set_prop (l : loc) (k : jsstring) (v : value) : M unit :=
  h ← get_heap;
  match h !! l with
  | Some (CObject o) => put_heap (<[l := CObject (object_put h o k v)]> h)
  | _ => mret tt
  end.

(** The function a call finally runs and the [this] it runs with: [bind]
    fixes [this] once and for all, innermost binding first. *)
Fixpoint resolve (f : fn) (this : value) : jsstring * value :=
  match f with
  | Plain id => (id, this)
  | Bound g t => resolve g t
  end.

(** [f.call(this, ...args)]: the call is recorded, then the function runs. *)
Definition call_fn (f : fn) (this : value) (args : list value) : M value :=
  fun w =>
    let '(id, t) := resolve f this in
    let log := calls w ++ [Call f this args] in
    match run id t args (heap w, ext w) with
    | (inl v, (h, e)) => Ok v (World h e log (timers w))
    | (inr x, (h, e)) => Throw (Thrown x) (World h e log (timers w))
    end.

Definition arg (i : nat) (args : list value) : value :=
  default VUndefined (args !! i).

(** [recv.name(...args)]. On a function value the only member modelled is
    [bind], which is [Function.prototype.bind]; everywhere else the member
    is looked up and must be a function. *)
Definition call_method (recv : value) (name : jsstring) (args : list value)
  : M value :=
  match recv with
  | VFun f =>
      if bool_decide (name = "bind") then mret (VFun (Bound f (arg 0 args)))
      else throw TypeError
  | _ =>
      m ← get_prop recv name;
      match m with
      | VFun g => call_fn g recv args
      | _ => throw TypeError
      end
  end.

(** ** The [object-assign] package

    [objectAssign(target, ...sources)] copies, source after source and key
    after key ([to[key] = from[key]]), the own enumerable properties of each
    source onto the target object, in place, and returns the target.
    [Object(source)] has no own enumerable property when the source is
    [undefined], [null], a number or a boolean. *)

Definition own_enumerable (h : gmap loc cell) (v : value) : gmap jsstring value :=
  match v with
  | VObj l => match h !! l with Some (CObject o) => own o | _ => ∅ end
  | VStr s => string_props s
  | _ => ∅
  end.

(** The [for (key in from)] loop: one assignment [to[key] = from[key]] per
    own key of the source. *)
Definition assign_props (h : gmap loc cell) (from : gmap jsstring value) (to : object)
  : object :=
  map_fold (fun key v acc => object_put h acc key v) to from.

Definition assign_from (to : loc) (source : value) : M unit :=
  h ← get_heap;
  match h !! to with
  | Some (CObject o) =>
      put_heap (<[to := CObject (assign_props h (own_enumerable h source) o)]> h)
  | _ => mret tt
  end.

Fixpoint forEach {A : Type} (f : A → M unit) (xs : list A) : M unit :=
  match xs with
  | [] => mret tt
  | x :: rest => f x;; forEach f rest
  end.

Definition objectAssign (target : loc) (sources : list value) : M value :=
  forEach (assign_from target) sources;;
  mret (VObj target).

(** ** The class *)

(** [this.el.attributes] handed to [[].forEach.call]: a DOM element gives its
    attribute list; [undefined.attributes] throws, and so does [forEach]
    called on the [undefined] or [null] that a value has for [attributes].
    An ordinary object that carries an array-like of its own under
    [attributes] is no input of this model: arrays are not modelled, and
    [lacks_attributes] below names the values on which the failure is that
    of the source. *)
Definition attributes_of (el : value) : M (list attr) :=
  match el with
  | VObj l =>
      h ← get_heap;
      match h !! l with
      | Some (CNode attrs) => mret attrs
      | _ => throw TypeError
      end
  | _ => throw TypeError
  end.

(** The callback of the [forEach] in [_configureData]. *)
Definition collect (DOMData : loc) (a : attr) : M unit :=
  if test_data_prefix (attr_name a) then
    set_prop DOMData (camelCaseName toUpperCase (attr_name a)) (VStr (attr_value a))
  else mret tt.

(** [this.defaultData ? this.defaultData() : {}] *)
Definition defaults : M loc :=
  match defaultData with
  | Some d => alloc (literal d)
  | None => alloc (literal ∅)
  end.

Definition _configureData (self : loc) : M unit :=
  DOMData ← alloc (literal ∅);
  el ← get_prop (VObj self) "el";
  attrs ← attributes_of el;
  forEach (collect DOMData) attrs;;
  target ← defaults;
  data ← get_prop (VObj self) "data";
  merged ← objectAssign target [VObj DOMData; data];
  set_prop self "data" merged.

(** [new C(...args)] for a class [C] that extends [Component]: the instance
    is a fresh object whose chain holds the class members. [jQuery(this.el)]
    and, in [_configureData], [this.defaultData()] are calls of code that
    lives outside the class; what they give is held by the parameters
    [jQuery] and [defaultData], and they are not entered in the log of
    calls, which records the calls made through function values of the
    state. *)
Definition constructor (args : list value) : M loc :=
  self ← alloc (CObject (Object ∅ proto true));
  set_prop self "el" (arg 0 args);;
  match jQuery with
  | Some wrap =>
      el ← get_prop (VObj self) "el";
      wrapped ← alloc (CObject (wrap el));
      set_prop self "$el" (VObj wrapped)
  | None => mret tt
  end;;
  set_prop self "data" (arg 1 args);;
  set_prop self "__mediator" (arg 2 args);;
  _configureData self;;
  mret self.

(** [bind(...names)]: the [for] loop over [arguments]. *)
Fixpoint bind (self : loc) (names : list jsstring) : M value :=
  match names with
  | [] => mret VUndefined
  | funcName :: rest =>
      member ← get_prop (VObj self) funcName;
      bound ← call_method member "bind" [VObj self];
      set_prop self funcName bound;;
      bind self rest
  end.

Definition publish (self : loc) (args : list value) : M value :=
  mediator ← get_prop (VObj self) "__mediator";
  call_method mediator "publish" args;;
  mret VUndefined.

Definition subscribe (self : loc) (topic callback : value) : M value :=
  mediator ← get_prop (VObj self) "__mediator";
  call_method mediator "subscribe" [topic; callback; VObj self];;
  mret VUndefined.

Definition unsubscribe (self : loc) (topic callback : value) : M value :=
  mediator ← get_prop (VObj self) "__mediator";
  call_method mediator "unsubscribe" [topic; callback; VObj self];;
  mret VUndefined.

Definition scan (self : loc) (data : value) : M value :=
  mediator ← get_prop (VObj self) "__mediator";
  call_method mediator "scan" [data];;
  mret VUndefined.

(** The host's [setTimeout]: the request is queued and a handle returned. *)
Definition setTimeout (callback ms : value) : M value := fun w =>
  Ok (VNum (Z.of_nat (S (length (timers w)))))
     (World (heap w) (ext w) (calls w) (timers w ++ [Timer callback ms])).

(** [defer(callback, ms = 17)]: the default applies to an [undefined]
    argument, which is also what an omitted one is. *)
Definition defer (self : loc) (callback ms : value) : M value :=
  let ms := match ms with VUndefined => VNum 17 | _ => ms end in
  setTimeout callback ms;;
  mret VUndefined.

Definition destroy (self : loc) : M value := mret VUndefined.

(** ** Observations on a state *)

(** [l[k]] read off a state. *)
Definition field (w : world) (l : loc) (k : jsstring) : value :=
  match heap w !! l with
  | Some (CObject o) => object_get o k
  | _ => VUndefined
  end.

(** The own property [l[k]], if [l] has one. *)
Definition own_field (w : world) (l : loc) (k : jsstring) : option value :=
  match heap w !! l with
  | Some (CObject o) => own o !! k
  | _ => None
  end.

(** The dictionary a value stands for. *)
Definition props (w : world) (v : value) : gmap jsstring value :=
  own_enumerable (heap w) v.

(** The resolved configuration of an instance: the content of [this.data]. *)
Definition config (w : world) (self : loc) : gmap jsstring value :=
  props w (field w self "data").

(** The function the mediator of an instance offers under a name. *)
Definition mediator_member (w : world) (self : loc) (name : jsstring) : option fn :=
  match field w self "__mediator" with
  | VObj m =>
      match field w m name with
      | VFun f => Some f
      | _ => None
      end
  | _ => None
  end.

(** What the code behind a function value does when called from the state
    [w]: its result and the heap and outside state it leaves. *)
Definition outside_call (f : fn) (this : value) (args : list value) (w : world)
  : (value + value) * (gmap loc cell * H) :=
  run (resolve f this).1 (resolve f this).2 args (heap w, ext w).

(** The code outside the class never writes to the cell at [l]. *)
Definition leaves (l : loc) : Prop :=
  ∀ id this args s, (run id this args s).2.1 !! l = s.1 !! l.

Definition world_of {A : Type} (r : outcome A) : world :=
  match r with
  | Ok _ w => w
  | Throw _ w => w
  end.

Definition succeeded {A : Type} (r : outcome A) : bool :=
  match r with
  | Ok _ _ => true
  | Throw _ _ => false
  end.

End WithEnvironment.

Arguments Ok {H A} a w.
Arguments Throw {H A} e w.
Arguments world : clear implicits.

(** The [this] a call of [f] runs with when the caller supplies [r]. *)
Definition this_context (f : fn) (r : value) : value := (resolve f r).2.

(** The receiver an earlier [bind] fixed, if any. *)
Fixpoint bound_to (f : fn) : option value :=
  match f with
  | Plain _ => None
  | Bound g t =>
      match bound_to g with
      | Some t' => Some t'
      | None => Some t
      end
  end.

(** A member that [bind] can still tie to [self]: an ordinary function, or
    one already tied to [self]. *)
Definition rebindable (self : loc) (v : value) : Prop :=
  ∃ f, v = VFun f ∧ (bound_to f = None ∨ bound_to f = Some (VObj self)).

Definition is_function (v : value) : bool :=
  match v with
  | VFun _ => true
  | _ => false
  end.

(** A member on which [member.bind(this)] cannot run: it is no function and
    offers no function under the name [bind]. *)
Definition unbindable {H : Type} (w : world H) (member : value) : bool :=
  match member with
  | VFun _ => false
  | VObj l => negb (is_function (field w l "bind"))
  | _ => true
  end.

(** One turn of the [forEach] of [_configureData] on the content of
    [DOMData], an object literal: the assignment under [__proto__] meets the
    setter, which ignores a string. *)
Definition dom_data_step (toUpperCase : N → list N)
    (m : gmap jsstring value) (a : attr) : gmap jsstring value :=
  if test_data_prefix (attr_name a) then
    if bool_decide (camelCaseName toUpperCase (attr_name a) = "__proto__")
       && negb (bool_decide (is_Some (m !! "__proto__")))
    then m
    else <[camelCaseName toUpperCase (attr_name a) := VStr (attr_value a)]> m
  else m.

(** The content of [DOMData] after the [forEach] over the attributes, in
    document order. *)
Definition dom_data (toUpperCase : N → list N) (attrs : list attr)
  : gmap jsstring value :=
  foldl (dom_data_step toUpperCase) ∅ attrs.

(** The own properties of an object literal with the properties [to] once
    [objectAssign] has copied onto it a source whose own enumerable
    properties are [from]: every key is written, except [__proto__] when
    the target does not own it (the setter takes the assignment). *)
Definition assigned (to from : gmap jsstring value) : gmap jsstring value :=
  if bool_decide (is_Some (to !! "__proto__")) then from ∪ to
  else delete "__proto__" from ∪ to.

(** ** The specification's wording *)

(** "[base] overlaid by [top]": the later source wins on a collision. *)
Definition overlay (base top : gmap jsstring value) : gmap jsstring value :=
  top ∪ base.









(** A case mapping that agrees with the language on every name written in
    ASCII; the sample states use it. *)
Definition ascii_toUpperCase (c : N) : list N :=
  if ((97 <=? c) && (c <=? 122))%N then [(c - 32)%N] else [c].

(** ** The mediator of the specification *)

Record registration : Type := Registration {
  reg_topic : value;
  reg_callback : value;
  reg_owner : value
}.

Fixpoint value_eqb (a b : value) : bool :=
  match a, b with
  | VUndefined, VUndefined => true
  | VNull, VNull => true
  | VBool x, VBool y => Bool.eqb x y
  | VNum x, VNum y => Z.eqb x y
  | VStr x, VStr y => bool_decide (x = y)
  | VObj x, VObj y => Pos.eqb x y
  | VFun f, VFun g => fn_eqb f g
  | _, _ => false
  end
with fn_eqb (f g : fn) : bool :=
  match f, g with
  | Plain x, Plain y => bool_decide (x = y)
  | Bound f' t, Bound g' u => fn_eqb f' g' && value_eqb t u
  | _, _ => false
  end.

Definition same_registration (a b : registration) : bool :=
  value_eqb (reg_topic a) (reg_topic b)
  && value_eqb (reg_callback a) (reg_callback b)
  && value_eqb (reg_owner a) (reg_owner b).

(** Modelled from the spec: the mediator (the external loader), of which the
    repository holds no code. It exposes [publish(topic, ...args)],
    [subscribe(topic, callback, owner)], [unsubscribe(topic, callback, owner)]
    and [scan(data)]; a registration is tagged with its owner, and
    unsubscribing a callback that was never registered under the owner and
    topic is a no-op, not an error. Its registry is the state kept outside
    the heap. *)
Definition mediator_run (id : jsstring) (this : value) (args : list value)
    (s : gmap loc cell * list registration)
  : (value + value) * (gmap loc cell * list registration) :=
  let r := Registration (arg 0 args) (arg 1 args) (arg 2 args) in
  if bool_decide (id = "mediator.subscribe") then
    (inl VUndefined, (s.1, s.2 ++ [r]))
  else if bool_decide (id = "mediator.unsubscribe") then
    (inl VUndefined, (s.1, List.filter (fun x => negb (same_registration x r)) s.2))
  else (inl VUndefined, s).

(** Modelled from the spec: the mediator object, an opaque capability that
    exposes the four functions above under their names. *)
Definition mediator_object : object :=
  Object ∅ {[ "publish" := VFun (Plain "mediator.publish");
              "subscribe" := VFun (Plain "mediator.subscribe");
              "unsubscribe" := VFun (Plain "mediator.unsubscribe");
              "scan" := VFun (Plain "mediator.scan") ]} true.

Definition registered (topic callback owner : value) (rs : list registration) : bool :=
  existsb (fun x => same_registration x (Registration topic callback owner)) rs.

(** ** The host's timers of the specification *)

(** Modelled from the spec: a request the host has accepted, with the time
    at which it falls due, and a run of a callback by the host, with the
    time of the run. *)
Record pending : Type := Pending {
  pending_id : nat;
  pending_callback : value;
  pending_due : Z
}.

Record firing : Type := Firing {
  firing_id : nat;
  firing_callback : value;
  firing_time : Z
}.

(** Modelled from the spec: the host's timer facility, of which the
    repository holds no code: a clock in milliseconds, the single queue of
    the requests not yet run, and the runs made so far. *)
Record host : Type := Host {
  clock : Z;
  queue : list pending;
  fired : list firing
}.

(** Modelled from the spec: the delay of a request, a number of
    milliseconds ("no earlier than delayMs milliseconds in the future"); a
    negative delay asks for no wait, and so does a value that is no number,
    to which the specification gives no meaning. *)
Definition delay_ms (v : value) : Z :=
  match v with
  | VNum n => Z.max 0 n
  | _ => 0
  end.

(** Modelled from the spec: the host takes a [setTimeout] request: it joins
    the end of the queue, due at the present time plus its delay. Nothing
    runs at this point. *)
Definition host_accept (id : nat) (t : timer) (hst : host) : host :=
  Host (clock hst)
       (queue hst ++
        [Pending id (timer_callback t) (clock hst + delay_ms (timer_delay t))])
       (fired hst).

(** Modelled from the spec: a turn of the host's event loop, [elapsed]
    milliseconds after the previous one, once the running call stack has
    returned: every request that has fallen due is run, once, in the order
    of the queue ("first-scheduled-first-fired on a single queue"), and
    leaves the queue; the others stay. *)
Definition host_turn (hst : host) (elapsed : Z) : host :=
  let now := (clock hst + Z.max 0 elapsed)%Z in
  Host now
       (filter (fun p => (now < pending_due p)%Z) (queue hst))
       (fired hst ++
        List.map (fun p => Firing (pending_id p) (pending_callback p) now)
                 (filter (fun p => (pending_due p ≤ now)%Z) (queue hst))).

(** The host after a sequence of turns. *)
Definition host_run (hst : host) (turns : list Z) : host :=
  foldl host_turn hst turns.

(** The requests the host still holds under [id]. *)
Definition pending_of (id : nat) (hst : host) : list pending :=
  filter (fun p => pending_id p = id) (queue hst).

(** The runs the host has made for the request [id]. *)
Definition firings_of (id : nat) (hst : host) : list firing :=
  filter (fun f => firing_id f = id) (fired hst).

(** The host knows no request under [id]. *)
Definition unused_id (id : nat) (hst : host) : Prop :=
  Forall (fun p => pending_id p ≠ id) (queue hst) ∧
  Forall (fun f => firing_id f ≠ id) (fired hst).

(** ** Further observations *)

(** A reference held by a value points into the heap. *)
Definition allocated {H : Type} (w : world H) (v : value) : Prop :=
  match v with
  | VObj l => is_Some (heap w !! l)
  | _ => True
  end.

(** [this.data] of the instance refers to an object whose own properties
    are [X]. *)
Definition configured {H : Type} (w : world H) (self : loc)
    (X : gmap jsstring value) : Prop :=
  ∃ t o, field w self "data" = VObj t ∧ heap w !! t = Some (CObject o) ∧ own o = X.



(** A first argument whose [attributes] cannot be iterated: a value
    that is no object, or an ordinary object on which [attributes] is
    [undefined] or [null]. *)
Definition lacks_attributes {H : Type} (w : world H) (el : value) : bool :=
  match el with
  | VObj l =>
      match heap w !! l with
      | Some (CObject o) =>
          match object_get o "attributes" with
          | VUndefined | VNull => true
          | _ => false
          end
      | _ => false
      end
  | _ => true
  end.

(** A first argument that [jQuery] takes for a selector, for markup or for
    a callback to run when the document is ready, on which it does more
    than wrap. *)
Definition selector_or_callback (el : value) : bool :=
  match el with
  | VStr _ | VFun _ => true
  | _ => false
  end.

(** A string without hyphen. *)
Definition no_hyphen (s : jsstring) : bool :=
  forallb (fun c => negb (N.eqb c 45)) (units s).

(** An override that is neither an object nor a string. *)
Definition plain_primitive (v : value) : bool :=
  match v with
  | VNull | VUndefined | VBool _ | VNum _ => true
  | _ => false
  end.

(** ** Sample states *)

(** Functions defined elsewhere that do nothing and return [undefined]. *)
Definition idle_run (id : jsstring) (this : value) (args : list value)
    (s : gmap loc cell * unit) : (value + value) * (gmap loc cell * unit) :=
  (inl VUndefined, s).

(** The end-to-end scenario: a node with [data-count="3"] and
    [data-label="hi"], defaults [{count: 1, label: 'x', extra: 'z'}] and the
    override [{count: 5}]. *)
Definition scenario_attrs : list attr :=
  [Attr "data-count" "3"; Attr "data-label" "hi"].

Definition scenario_defaults : gmap jsstring value :=
  {[ "count" := VNum 1; "label" := VStr "x"; "extra" := VStr "z" ]}.

Definition scenario_override : gmap jsstring value := {[ "count" := VNum 5 ]}.

Definition scenario_world : world unit :=
  World (<[1%positive := CNode scenario_attrs]>
           (<[2%positive := literal scenario_override]> ∅)) tt [] [].





(** A node without any attribute. *)
Definition bare_world : world unit :=
  World (<[1%positive := CNode []]> ∅) tt [] [].







(** An instance at location 1 whose class defines the methods [foo] and
    [bar], and the same instance once [foo] has been bound. *)
Definition methods_object : object :=
  Object ∅ {[ "foo" := VFun (Plain "foo"); "bar" := VFun (Plain "bar") ]} true.

Definition methods_world : world unit :=
  World (<[1%positive := CObject methods_object]> ∅) tt [] [].

Definition foo_bound_world : world unit :=
  World (<[1%positive :=
             CObject (object_set methods_object "foo"
                        (VFun (Bound (Plain "foo") (VObj 1%positive))))]> ∅)
        tt [] [].

(** An instance whose member [helper] is an object, not a function, that
    owns a function under the name [bind]. *)
Definition helper_world : world unit :=
  World (<[1%positive := literal {[ "helper" := VObj 2%positive ]}]>
           (<[2%positive := literal {[ "bind" := VFun (Plain "helper.bind") ]}]> ∅))
        tt [] [].

(** An instance whose member [foo] was bound to another object before. *)
Definition prebound : fn := Bound (Plain "foo") (VObj 2%positive).

Definition prebound_world : world unit :=
  World (<[1%positive := literal {[ "foo" := VFun prebound ]}]>
           (<[2%positive := literal ∅]> ∅))
        tt [] [].

(** An instance at location 1 whose mediator, at location 2, is the
    mediator of the specification, with one registration of another
    callback. *)
Definition mediated_object : object :=
  Object {[ "el" := VObj 3%positive; "data" := VObj 4%positive;
            "__mediator" := VObj 2%positive ]} ∅ true.

Definition mediated_heap : gmap loc cell :=
  <[1%positive := CObject mediated_object]>
    (<[2%positive := CObject mediator_object]>
       (<[3%positive := CNode []]> (<[4%positive := literal ∅]> ∅))).

Definition mediated_world : world (list registration) :=
  World mediated_heap
        [Registration (VStr "ready") (VFun (Plain "onReady")) (VObj 1%positive)]
        [] [].

(** A [jQuery] whose wrapper keeps the wrapped value under ["0"]. *)
Definition sample_jQuery (el : value) : object := Object {[ "0" := el ]} ∅ true.

(** A configured instance whose node changed since: [count] now reads
    ["9"] on the node and [data-added] is new. *)
Definition changed_attrs : list attr :=
  [Attr "data-count" "9"; Attr "data-added" "n"].

Definition changed_world : world unit :=
  World (<[1%positive := literal {[ "el" := VObj 2%positive; "data" := VObj 3%positive ]}]>
           (<[2%positive := CNode changed_attrs]>
              (<[3%positive := literal scenario_override]> ∅)))
        tt [] [].

(** Functions behind the mediator's names that answer: [unsubscribe]
    returns [true], [scan] throws, the others return [undefined]. *)
Definition answering_run (id : jsstring) (this : value) (args : list value)
    (s : gmap loc cell * list registration)
  : (value + value) * (gmap loc cell * list registration) :=
  if bool_decide (id = "mediator.unsubscribe") then (inl (VBool true), s)
  else if bool_decide (id = "mediator.scan") then (inr (VStr "busy"), s)
  else (inl VUndefined, s).

(** An instance with the method [onReady] and a mediator. *)
Definition listening_object : object :=
  Object {[ "__mediator" := VObj 2%positive ]}
         {[ "onReady" := VFun (Plain "onReady") ]} true.

Definition listening_world : world (list registration) :=
  World (<[1%positive := CObject listening_object]>
           (<[2%positive := CObject mediator_object]> ∅))
        [] [] [].

(** A host at time 100 with one request of another caller in its queue,
    due at 110. *)
Definition busy_host : host :=
  Host 100 [Pending 1 (VFun (Plain "other")) 110] [].

(** * Properties *)

(** ** Attribute names and configuration keys *)

Lemma jsstring_eta (s : jsstring) : JS (units s) = s.
Proof. by destruct s. Qed.











(** ** The content of [DOMData] *)

Lemma dom_data_snoc toUpperCase (attrs : list attr) (a : attr) :
  dom_data toUpperCase (attrs ++ [a]) =
  dom_data_step toUpperCase (dom_data toUpperCase attrs) a.
Proof. unfold dom_data. by rewrite foldl_app. Qed.

(** [DOMData] never owns the key [__proto__]. *)
Lemma dom_data_no_proto toUpperCase (attrs : list attr) :
  dom_data toUpperCase attrs !! "__proto__" = None.
Proof.
  induction attrs as [|a attrs IH] using rev_ind; [apply lookup_empty|].
  rewrite dom_data_snoc. unfold dom_data_step.
  destruct (test_data_prefix (attr_name a)); [|done].
  rewrite IH.
  destruct (bool_decide_reflect (camelCaseName toUpperCase (attr_name a) = "__proto__"))
    as [E|E]; cbn; [done|].
  by rewrite lookup_insert_ne.
Qed.



Lemma filter_none {A : Type} (P : A → Prop) `{∀ x, Decision (P x)} (l : list A) :
  Forall (fun x => ¬ P x) l → filter P l = [].
Proof.
  induction 1 as [|x l Hx _ IH]; [done|].
  by rewrite filter_cons, decide_False.
Qed.









(** ** The layers of the configuration *)

Lemma assigned_lookup (to from : gmap jsstring value) (k : jsstring) :
  k ≠ "__proto__" → assigned to from !! k = (from ∪ to) !! k.
Proof.
  intros Hk. unfold assigned. case_bool_decide; [done|].
  by rewrite !lookup_union, lookup_delete_ne.
Qed.

Lemma assigned_lookup_none (to from : gmap jsstring value) (k : jsstring) :
  from !! k = None → assigned to from !! k = to !! k.
Proof.
  intros Hk. unfold assigned. case_bool_decide.
  - by rewrite lookup_union, Hk, (left_id_L None (∪)).
  - rewrite lookup_union. destruct (decide (k = "__proto__")) as [->|Hne].
    + by rewrite lookup_delete_eq, (left_id_L None (∪)).
    + by rewrite lookup_delete_ne, Hk, (left_id_L None (∪)).
Qed.

Lemma assigned_union (to from : gmap jsstring value) :
  from !! "__proto__" = None ∨ is_Some (to !! "__proto__") →
  assigned to from = from ∪ to.
Proof.
  intros Hk. unfold assigned. case_bool_decide as Hto; [done|].
  destruct Hk as [Hk|Hk]; [|done]. by rewrite delete_id.
Qed.

Lemma assigned_idempotent (to from : gmap jsstring value) :
  assigned to (assigned to from) = assigned to from.
Proof.
  unfold assigned. case_bool_decide as Hto.
  - by rewrite <-(assoc_L (∪)), (idemp_L (∪)).
  - apply map_eq. intros k. rewrite !lookup_union.
    destruct (decide (k = "__proto__")) as [->|Hk].
    + by rewrite !lookup_delete_eq.
    + rewrite !lookup_delete_ne, lookup_union, lookup_delete_ne by done.
      by destruct (from !! k), (to !! k).
Qed.

Section Properties.

Context {H : Type}.
Variable run :
  jsstring → value → list value → gmap loc cell * H →
  (value + value) * (gmap loc cell * H).
Variable toUpperCase : N → list N.
Variable jQuery : option (value → object).
Variable proto : gmap jsstring value.
Variable defaultData : option (gmap jsstring value).

#[local] Existing Instance M_ret.
#[local] Existing Instance M_bind.

Implicit Types (w : world H) (l self : loc) (h : gmap loc cell).

(** A location that holds a cell differs from one that is free. *)
Ltac not_free :=
  let E := fresh in
  intros E; subst;
  match goal with
  | Hfree : ?h !! ?l = None, Hused : is_Some (?h !! ?l) |- _ =>
      rewrite Hfree in Hused; by destruct Hused
  end.

(** ** Running the primitives *)

Lemma run_bind {A B : Type} (c : M A) (k : A → M B) (w : world H) :
  (c ≫= k) w =
  match c w with
  | Ok a w' => k a w'
  | Throw e w' => Throw e w'
  end.
Proof. reflexivity. Qed.

Lemma alloc_fresh (c : cell) w :
  ∃ l, heap w !! l = None ∧ alloc c w = Ok l (set_heap (<[l := c]> (heap w)) w).
Proof.
  exists (fresh (dom (heap w))). split; [|reflexivity].
  apply not_elem_of_dom, is_fresh.
Qed.

Lemma get_prop_object w l o k :
  heap w !! l = Some (CObject o) →
  get_prop (VObj l) k w = Ok (object_get o k) w.
Proof. intros Hl. unfold get_prop. rewrite run_bind. cbn. by rewrite Hl. Qed.

Lemma get_prop_field w l k :
  get_prop (VObj l) k w = Ok (field w l k) w.
Proof.
  unfold get_prop, field. rewrite run_bind. cbn.
  by destruct (heap w !! l) as [[]|].
Qed.

Lemma set_prop_object w l o k v :
  heap w !! l = Some (CObject o) →
  set_prop l k v w =
  Ok tt (set_heap (<[l := CObject (object_put (heap w) o k v)]> (heap w)) w).
Proof. intros Hl. unfold set_prop. rewrite run_bind. cbn. by rewrite Hl. Qed.

(** Under a name other than [__proto__] an assignment writes an own
    property. *)
Lemma object_put_other h o k v :
  k ≠ "__proto__" → object_put h o k v = object_set o k v.
Proof.
  intros Hk. unfold object_put, runs_proto_setter.
  by rewrite bool_decide_eq_false_2.
Qed.

(** So does an assignment under a name the object holds a function for. *)
Lemma object_put_function h o k v f :
  object_get o k = VFun f → object_put h o k v = object_set o k v.
Proof.
  intros Hf. unfold object_put, runs_proto_setter.
  assert (sees o k = true) as ->; [|by rewrite andb_false_r].
  unfold sees, object_get in *. apply orb_true_iff.
  rewrite !bool_decide_eq_true.
  destruct (own o !! k) as [x|]; [by left|].
  destruct (inherited o !! k) as [x|]; [by right|done].
Qed.

Lemma set_heap_heap h w : heap (set_heap h w) = h.
Proof. reflexivity. Qed.

Lemma set_heap_twice h h' w : set_heap h (set_heap h' w) = set_heap h w.
Proof. reflexivity. Qed.

Lemma set_heap_same w : set_heap (heap w) w = w.
Proof. by destruct w. Qed.

(** ** The loop of [objectAssign] *)

(** The [for]-[in] loop overlays the source on the target, key by key; the
    key [__proto__] is taken by the setter when the target inherits the
    accessor unshadowed, and leaves the own properties as they are. *)
Lemma assign_props_spec h (from : gmap jsstring value) (o : object) :
  own (assign_props h from o) =
    (if runs_proto_setter o "__proto__" then delete "__proto__" from else from) ∪ own o ∧
  (from !! "__proto__" = None →
   inherited (assign_props h from o) = inherited o ∧
   proto_accessor (assign_props h from o) = proto_accessor o).
Proof.
  unfold assign_props.
  apply (map_fold_weak_ind
           (fun r m =>
              own r = (if runs_proto_setter o "__proto__"
                       then delete "__proto__" m else m) ∪ own o ∧
              (m !! "__proto__" = None →
               inherited r = inherited o ∧ proto_accessor r = proto_accessor o))).
  - split; [|done]. rewrite delete_empty. destruct (runs_proto_setter o "__proto__");
      by rewrite (left_id_L ∅ (∪)).
  - intros i x m r Hi [Hown Hrest].
    destruct (decide (i = "__proto__")) as [->|Hne].
    + destruct (Hrest Hi) as [Hinh Hacc].
      rewrite delete_id in Hown by done.
      assert (own r = m ∪ own o) as Hr by (by destruct (runs_proto_setter o "__proto__")).
      assert (runs_proto_setter r "__proto__" = runs_proto_setter o "__proto__") as Hsame.
      { unfold runs_proto_setter, sees.
        by rewrite Hacc, Hinh, Hr, lookup_union, Hi, (left_id_L None (∪)). }
      split; [|by rewrite lookup_insert_eq].
      unfold object_put. rewrite Hsame.
      destruct (runs_proto_setter o "__proto__").
      * rewrite delete_insert_eq, delete_id by done.
        by destruct (chain_of h x) as [[members accessor]|].
      * cbn. by rewrite Hr, insert_union_l.
    + rewrite object_put_other by done. cbn. split.
      * rewrite Hown. destruct (runs_proto_setter o "__proto__").
        -- by rewrite insert_union_l, delete_insert_ne.
        -- by rewrite insert_union_l.
      * rewrite lookup_insert_ne by done. exact Hrest.
Qed.

(** On an object literal the loop gives [assigned]. *)
Lemma assign_props_literal h (from to : gmap jsstring value) :
  own (assign_props h from (Object to ∅ true)) = assigned to from.
Proof.
  rewrite (proj1 (assign_props_spec h from _)).
  unfold runs_proto_setter, sees, assigned. cbn.
  rewrite lookup_empty.
  rewrite (bool_decide_eq_false_2 (is_Some None)) by (by intros [? ?]).
  rewrite bool_decide_eq_true_2 by done. cbn. rewrite orb_false_r.
  by destruct (bool_decide (is_Some (to !! "__proto__"))).
Qed.

(** A source without the key [__proto__] is copied as it is. *)
Lemma assign_props_plain h (from : gmap jsstring value) (o : object) :
  from !! "__proto__" = None →
  assign_props h from o = Object (from ∪ own o) (inherited o) (proto_accessor o).
Proof.
  intros Hfrom.
  destruct (assign_props_spec h from o) as [Hown Hrest].
  destruct (Hrest Hfrom) as [Hinh Hacc].
  rewrite delete_id in Hown by done.
  destruct (assign_props h from o) as [a b c]. cbn in *. subst b c.
  f_equal. by destruct (runs_proto_setter o "__proto__").
Qed.

Lemma assign_from_object w to o source :
  heap w !! to = Some (CObject o) →
  assign_from to source w =
  Ok tt (set_heap
           (<[to := CObject (assign_props (heap w) (own_enumerable (heap w) source) o)]>
              (heap w)) w).
Proof. intros Hl. unfold assign_from. rewrite run_bind. cbn. by rewrite Hl. Qed.

(** [objectAssign(target, s1, s2)]: the second source is read after the
    first has been copied. *)
Lemma objectAssign_two w t o s1 s2 :
  heap w !! t = Some (CObject o) →
  let o1 := assign_props (heap w) (own_enumerable (heap w) s1) o in
  let h1 := <[t := CObject o1]> (heap w) in
  objectAssign t [s1; s2] w =
  Ok (VObj t)
     (set_heap (<[t := CObject (assign_props h1 (own_enumerable h1 s2) o1)]> (heap w)) w).
Proof.
  intros Ht o1 h1. unfold objectAssign. cbn [forEach].
  rewrite run_bind, run_bind, (assign_from_object w t o s1 Ht).
  rewrite run_bind.
  erewrite assign_from_object by (rewrite set_heap_heap; apply lookup_insert_eq).
  cbn. by rewrite insert_insert_eq.
Qed.

(** ** The [forEach] over the attributes *)

(** One assignment [DOMData[key] = attr.value]. *)
Lemma collect_put h (m : gmap jsstring value) (k s : jsstring) :
  object_put h (Object m ∅ true) k (VStr s) =
  Object (if bool_decide (k = "__proto__") && negb (bool_decide (is_Some (m !! "__proto__")))
          then m else <[k := VStr s]> m) ∅ true.
Proof.
  unfold object_put, runs_proto_setter, sees. cbn.
  rewrite lookup_empty.
  rewrite (bool_decide_eq_false_2 (is_Some None)) by (by intros [? ?]).
  rewrite orb_false_r.
  destruct (bool_decide_reflect (k = "__proto__")) as [->|Hk]; cbn; [|done].
  by destruct (bool_decide (is_Some (m !! "__proto__"))).
Qed.

(** The [forEach] of [_configureData] leaves in [DOMData] what [dom_data]
    computes, starting from the content [m]. *)
Lemma forEach_collect attrs : ∀ w d m,
  heap w !! d = Some (literal m) →
  forEach (collect toUpperCase d) attrs w =
  Ok tt (set_heap (<[d := literal (foldl (dom_data_step toUpperCase) m attrs)]> (heap w)) w).
Proof.
  induction attrs as [|a attrs IH]; intros w d m Hd; cbn [forEach foldl].
  - cbn. by rewrite insert_id, set_heap_same.
  - rewrite run_bind. unfold collect at 1, dom_data_step at 2.
    destruct (test_data_prefix (attr_name a)).
    + rewrite (set_prop_object _ _ _ _ _ Hd), collect_put.
      erewrite IH by (rewrite set_heap_heap; apply lookup_insert_eq).
      by rewrite set_heap_heap, set_heap_twice, insert_insert_eq.
    + cbn. by apply IH.
Qed.

Lemma own_enumerable_frame w h v :
  allocated w v →
  (∀ l, is_Some (heap w !! l) → h !! l = heap w !! l) →
  own_enumerable h v = own_enumerable (heap w) v.
Proof.
  intros Hv Hh. destruct v as [| | | | |l|]; try reflexivity.
  cbn in *. by rewrite (Hh l Hv).
Qed.

Lemma attributes_of_node w node attrs :
  heap w !! node = Some (CNode attrs) →
  attributes_of (VObj node) w = Ok attrs w.
Proof. intros Hn. unfold attributes_of. rewrite run_bind. cbn. by rewrite Hn. Qed.

Lemma defaults_fresh w :
  ∃ t, heap w !! t = None ∧
       defaults defaultData w =
       Ok t (set_heap (<[t := literal (default ∅ defaultData)]> (heap w)) w).
Proof. unfold defaults. destruct defaultData; apply alloc_fresh. Qed.

Lemma object_get_set o k v k' :
  object_get (object_set o k v) k' = if decide (k = k') then v else object_get o k'.
Proof.
  unfold object_get, object_set. cbn. rewrite lookup_insert.
  by destruct (decide (k = k')).
Qed.

Lemma object_get_set_eq o k v : object_get (object_set o k v) k = v.
Proof. rewrite object_get_set. by rewrite decide_True. Qed.

Lemma object_get_set_ne o k v k' :
  k ≠ k' → object_get (object_set o k v) k' = object_get o k'.
Proof. intros. rewrite object_get_set. by rewrite decide_False. Qed.

Lemma field_insert w h l o k :
  field (set_heap (<[l := CObject o]> h) w) l k = object_get o k.
Proof. unfold field. by rewrite set_heap_heap, lookup_insert_eq. Qed.

(** ** Resolution of the configuration *)

(** One run of [_configureData] on an instance bound to a DOM element: two
    objects are allocated ([DOMData] and the target built from the
    defaults), the target receives the three layers, and [this.data] is
    pointed at it. Nothing else changes. *)
Lemma configureData_run w self o node attrs :
  heap w !! self = Some (CObject o) →
  object_get o "el" = VObj node →
  heap w !! node = Some (CNode attrs) →
  allocated w (object_get o "data") →
  ∃ d t ot, heap w !! d = None ∧ heap w !! t = None ∧ d ≠ t ∧
    own ot = assigned (overlay (default ∅ defaultData) (dom_data toUpperCase attrs))
                      (props w (object_get o "data")) ∧
    _configureData toUpperCase defaultData self w =
    Ok tt (set_heap
             (<[self := CObject (object_set o "data" (VObj t))]>
                (<[t := CObject ot]>
                   (<[d := literal (dom_data toUpperCase attrs)]> (heap w)))) w).
Proof.
  intros Hself Hel Hnode Hdata. unfold _configureData.
  destruct (alloc_fresh (literal ∅) w) as (d & Hd & Ed).
  rewrite run_bind, Ed.
  assert (d ≠ self) as Hds by congruence.
  assert (d ≠ node) as Hdn by congruence.
  rewrite run_bind, (get_prop_object _ self o)
    by (by rewrite set_heap_heap, lookup_insert_ne).
  rewrite Hel, run_bind, (attributes_of_node _ node attrs)
    by (by rewrite set_heap_heap, lookup_insert_ne).
  rewrite run_bind, (forEach_collect attrs _ d ∅)
    by (by rewrite set_heap_heap, lookup_insert_eq).
  rewrite set_heap_heap, insert_insert_eq, set_heap_twice.
  fold (dom_data toUpperCase attrs).
  set (A := dom_data toUpperCase attrs).
  destruct (defaults_fresh (set_heap (<[d := literal A]> (heap w)) w))
    as (t & Ht & Et).
  rewrite set_heap_heap in Ht, Et. rewrite set_heap_twice in Et.
  rewrite run_bind, Et.
  assert (t ≠ d) as Htd by (intros ->; by rewrite lookup_insert_eq in Ht).
  rewrite lookup_insert_ne in Ht by done.
  assert (t ≠ self) as Hts by congruence.
  rewrite run_bind, (get_prop_object _ self o)
    by (by rewrite set_heap_heap, !lookup_insert_ne).
  rewrite run_bind, (objectAssign_two _ t (Object (default ∅ defaultData) ∅ true))
    by (by rewrite set_heap_heap, lookup_insert_eq).
  rewrite set_heap_heap, set_heap_twice, !insert_insert_eq.
  cbn [own_enumerable].
  rewrite lookup_insert_ne, lookup_insert_eq by done. cbn [literal own].
  rewrite (assign_props_plain _ A) by apply dom_data_no_proto.
  cbn [own inherited proto_accessor].
  rewrite (own_enumerable_frame w _ (object_get o "data")); [|done|]; cycle 1.
  { intros l Hl. rewrite !lookup_insert_ne; [done| |].
    - not_free.
    - not_free. }
  rewrite (set_prop_object _ self o)
    by (by rewrite set_heap_heap, !lookup_insert_ne).
  rewrite object_put_other by done.
  rewrite set_heap_heap, set_heap_twice.
  eexists d, t, _. split; [done|]. split; [done|]. split; [done|].
  split; [|reflexivity].
  apply assign_props_literal.
Qed.

(** ** The constructor, step by step *)

(** The two assignments [this.data = ...; this.__mediator = ...]. *)
Lemma set_fields {A : Type} w self o a b (k : M A) :
  heap w !! self = Some (CObject o) →
  (set_prop self "data" a;; set_prop self "__mediator" b;; k) w =
  k (set_heap
       (<[self := CObject (object_set (object_set o "data" a) "__mediator" b)]> (heap w))
       w).
Proof.
  intros Hself.
  rewrite run_bind, (set_prop_object _ _ _ _ _ Hself), object_put_other, run_bind by done.
  erewrite set_prop_object by (rewrite set_heap_heap; apply lookup_insert_eq).
  by rewrite object_put_other, set_heap_heap, set_heap_twice, insert_insert_eq.
Qed.

(** The constructor up to the call of [_configureData]: the instance is a
    new object that holds the three arguments, and the wrapper when
    [jQuery] is defined; nothing that existed is touched. *)
Lemma constructor_prefix w args :
  ∃ self o1 h1,
    heap w !! self = None ∧
    h1 !! self = Some (CObject o1) ∧
    constructor toUpperCase jQuery proto defaultData args w =
      (_configureData toUpperCase defaultData self;; mret self) (set_heap h1 w) ∧
    object_get o1 "el" = arg 0 args ∧
    object_get o1 "data" = arg 1 args ∧
    object_get o1 "__mediator" = arg 2 args ∧
    (∀ l, is_Some (heap w !! l) → h1 !! l = heap w !! l) ∧
    match jQuery with
    | Some wrap =>
        ∃ j, heap w !! j = None ∧ j ≠ self ∧
             own o1 !! "$el" = Some (VObj j) ∧
             h1 !! j = Some (CObject (wrap (arg 0 args)))
    | None => own o1 !! "$el" = None
    end.
Proof.
  unfold constructor.
  destruct (alloc_fresh (CObject (Object ∅ proto true)) w) as (self & Hfresh & Ealloc).
  rewrite run_bind, Ealloc, run_bind.
  erewrite set_prop_object by (rewrite set_heap_heap; apply lookup_insert_eq).
  rewrite object_put_other by done.
  rewrite set_heap_heap, set_heap_twice, insert_insert_eq.
  set (o1 := object_set (Object ∅ proto true) "el" (arg 0 args)).
  destruct jQuery as [wrap|].
  - rewrite run_bind, run_bind.
    erewrite get_prop_object by (rewrite set_heap_heap; apply lookup_insert_eq).
    rewrite run_bind.
    destruct (alloc_fresh (CObject (wrap (object_get o1 "el")))
                (set_heap (<[self := CObject o1]> (heap w)) w))
      as (j & Hj & Ej).
    rewrite Ej. rewrite set_heap_heap in Hj.
    assert (j ≠ self) as Hjs by (intros ->; by rewrite lookup_insert_eq in Hj).
    rewrite lookup_insert_ne in Hj by done.
    erewrite set_prop_object
      by (rewrite !set_heap_heap, lookup_insert_ne by done; apply lookup_insert_eq).
    rewrite object_put_other by done.
    rewrite !set_heap_heap, !set_heap_twice.
    erewrite set_fields by (rewrite set_heap_heap; apply lookup_insert_eq).
    rewrite set_heap_heap, set_heap_twice.
    set (o2 := object_set (object_set (object_set o1 "$el" (VObj j))
                                      "data" (arg 1 args))
                          "__mediator" (arg 2 args)).
    exists self, o2,
      (<[self := CObject o2]>
         (<[self := CObject (object_set o1 "$el" (VObj j))]>
            (<[j := CObject (wrap (object_get o1 "el"))]>
               (<[self := CObject o1]> (heap w))))).
    assert (object_get o1 "el" = arg 0 args) as Hel
      by (unfold o1; apply object_get_set_eq).
    split; [done|]. split; [apply lookup_insert_eq|]. split; [reflexivity|].
    unfold o2. split; [by rewrite !object_get_set_ne by done|].
    split; [by rewrite object_get_set_ne, object_get_set_eq by done|].
    split; [by rewrite object_get_set_eq|]. split.
    + intros l Hl.
      assert (l ≠ self) by (intros ->; rewrite Hfresh in Hl; by destruct Hl).
      assert (l ≠ j) by (intros ->; rewrite Hj in Hl; by destruct Hl).
      by rewrite !lookup_insert_ne.
    + exists j. split; [done|]. split; [done|]. split.
      * cbn. rewrite !lookup_insert_ne by done. apply lookup_insert_eq.
      * rewrite !lookup_insert_ne by done. by rewrite lookup_insert_eq, Hel.
  - rewrite run_bind. cbn [mret M_ret].
    erewrite set_fields by (rewrite set_heap_heap; apply lookup_insert_eq).
    rewrite set_heap_heap, set_heap_twice.
    set (o2 := object_set (object_set o1 "data" (arg 1 args))
                          "__mediator" (arg 2 args)).
    exists self, o2, (<[self := CObject o2]> (<[self := CObject o1]> (heap w))).
    split; [done|]. split; [apply lookup_insert_eq|]. split; [reflexivity|].
    unfold o2, o1.
    split; [by rewrite !object_get_set_ne, object_get_set_eq by done|].
    split; [by rewrite object_get_set_ne, object_get_set_eq by done|].
    split; [by rewrite object_get_set_eq|]. split.
    + intros l Hl.
      assert (l ≠ self) by (intros ->; rewrite Hfresh in Hl; by destruct Hl).
      by rewrite !lookup_insert_ne.
    + cbn. by rewrite !lookup_insert_ne.
Qed.

(** Construction on a DOM element, with the objects it allocates named:
    the instance, the configuration object [t] behind [this.data] and, when
    [jQuery] is defined, the wrapper behind [this.$el]. The configuration
    object is the target built from the defaults, onto which the attribute
    entries and then the override have been copied; the element and the
    mediator are stored as given, and no object that existed before is
    touched. *)
Lemma constructor_outcome w args node attrs :
  arg 0 args = VObj node →
  heap w !! node = Some (CNode attrs) →
  allocated w (arg 1 args) →
  ∃ self t ot w',
    constructor toUpperCase jQuery proto defaultData args w = Ok self w' ∧
    heap w !! self = None ∧ heap w !! t = None ∧ self ≠ t ∧
    field w' self "data" = VObj t ∧
    field w' self "el" = VObj node ∧
    field w' self "__mediator" = arg 2 args ∧
    heap w' !! t = Some (CObject ot) ∧
    own ot = assigned (overlay (default ∅ defaultData) (dom_data toUpperCase attrs))
                      (props w (arg 1 args)) ∧
    match jQuery with
    | Some wrap =>
        ∃ j, heap w !! j = None ∧
             own_field w' self "$el" = Some (VObj j) ∧
             heap w' !! j = Some (CObject (wrap (VObj node)))
    | None => own_field w' self "$el" = None
    end ∧
    (∀ l, is_Some (heap w !! l) → heap w' !! l = heap w !! l) ∧
    ext w' = ext w ∧ calls w' = calls w ∧ timers w' = timers w.
Proof.
  intros Harg Hnode Hdata.
  destruct (constructor_prefix w args)
    as (self & o1 & h1 & Hfresh & Hself & E & Hel & Hd1 & Hm1 & Hframe & Hjq).
  assert (∀ l, h1 !! l = None → heap w !! l = None) as Hfree.
  { intros l Hl. destruct (heap w !! l) as [c|] eqn:Hc; [|done].
    rewrite Hframe in Hl by eauto. congruence. }
  destruct (configureData_run (set_heap h1 w) self o1 node attrs)
    as (d & t & ot & Hd & Ht & Hdt & Hot & Erun).
  - done.
  - by rewrite Hel.
  - rewrite set_heap_heap, Hframe; eauto.
  - rewrite Hd1. destruct (arg 1 args) as [| | | | |x|]; try done. cbn in *.
    rewrite Hframe; eauto.
  - rewrite set_heap_heap in Hd, Ht.
    rewrite E, run_bind, Erun. cbn [mret M_ret].
    rewrite set_heap_heap, set_heap_twice. rewrite Hd1 in Hot.
    assert (props (set_heap h1 w) (arg 1 args) = props w (arg 1 args)) as Eprops.
    { unfold props. apply own_enumerable_frame; [done|].
      intros l Hl. by rewrite set_heap_heap, Hframe. }
    rewrite Eprops in Hot.
    assert (t ≠ self) as Hts by congruence.
    assert (d ≠ self) as Hds by congruence.
    eexists self, t, ot, _. split; [reflexivity|].
    split; [done|]. split; [by apply Hfree|]. split; [done|].
    split; [by rewrite field_insert, object_get_set_eq|].
    split; [by rewrite field_insert, object_get_set_ne, Hel|].
    split; [by rewrite field_insert, object_get_set_ne|].
    split; [by rewrite set_heap_heap, lookup_insert_ne, lookup_insert_eq|].
    split; [done|].
    split; [|split; [|done]].
    + unfold own_field. rewrite set_heap_heap, lookup_insert_eq. cbn.
      destruct jQuery as [wrap|]; [|by rewrite lookup_insert_ne].
      destruct Hjq as (j & Hj & Hjs & Hown & Hcell).
      exists j. split; [done|]. split; [by rewrite lookup_insert_ne|].
      rewrite !lookup_insert_ne by congruence. by rewrite Hcell, Harg.
    + intros l Hl.
      assert (is_Some (h1 !! l)) as Hl1 by (by rewrite Hframe).
      rewrite set_heap_heap, !lookup_insert_ne; [by apply Hframe|intros ->..].
      * rewrite Hd in Hl1. by destruct Hl1.
      * rewrite Ht in Hl1. by destruct Hl1.
      * rewrite Hfresh in Hl. by destruct Hl.
Qed.

Lemma configured_config w self X : configured w self X → config w self = X.
Proof.
  intros (t & o & Hd & Ht & HX). unfold config, props. rewrite Hd. cbn. by rewrite Ht.
Qed.

(** The configuration a construction on a DOM element resolves. *)
Lemma constructor_config w args node attrs :
  arg 0 args = VObj node →
  heap w !! node = Some (CNode attrs) →
  allocated w (arg 1 args) →
  ∃ self w',
    constructor toUpperCase jQuery proto defaultData args w = Ok self w' ∧
    config w' self =
      assigned (overlay (default ∅ defaultData) (dom_data toUpperCase attrs))
               (props w (arg 1 args)) ∧
    field w' self "el" = VObj node ∧
    (∀ l, is_Some (heap w !! l) → heap w' !! l = heap w !! l) ∧
    configured w' self
      (assigned (overlay (default ∅ defaultData) (dom_data toUpperCase attrs))
                (props w (arg 1 args))).
Proof.
  intros Harg Hnode Hdata.
  destruct (constructor_outcome w args node attrs Harg Hnode Hdata)
    as (self & t & ot & w' & E & _ & _ & _ & Hd & Hel & _ & Ht & Hot & _ & Hframe & _).
  assert (configured w' self
            (assigned (overlay (default ∅ defaultData) (dom_data toUpperCase attrs))
                      (props w (arg 1 args)))) as Hcfg by (by exists t, ot).
  exists self, w'. split; [done|]. split; [by apply configured_config|done].
Qed.

(** A further run of [_configureData] on an instance that is configured. *)
Lemma configureData_again w self node attrs X :
  field w self "el" = VObj node →
  heap w !! node = Some (CNode attrs) →
  configured w self X →
  ∃ w',
    _configureData toUpperCase defaultData self w = Ok tt w' ∧
    configured w' self
      (assigned (overlay (default ∅ defaultData) (dom_data toUpperCase attrs)) X).
Proof.
  intros Hel Hnode (t & ox & Hdata & Ht & HX).
  unfold field in Hel, Hdata.
  destruct (heap w !! self) as [[o|]|] eqn:Hself; try done.
  destruct (configureData_run w self o node attrs)
    as (d & t' & ot & Hd & Ht' & Hdt & Hot & E); try done.
  { rewrite Hdata. cbn. eauto. }
  eexists. split; [exact E|].
  exists t', ot. rewrite field_insert, object_get_set_eq. split; [done|].
  rewrite set_heap_heap, lookup_insert_ne, lookup_insert_eq by congruence.
  split; [done|].
  rewrite Hot, Hdata. unfold props. cbn. by rewrite Ht, HX.
Qed.

(** ** The claims on construction *)




(** ** [bind] *)

Lemma resolve_this (f : fn) : ∀ r, (resolve f r).2 = default r (bound_to f).
Proof.
  induction f as [id|g IH t]; intros r; [done|].
  cbn. rewrite IH. by destruct (bound_to g).
Qed.

Lemma rebindable_bound self f :
  rebindable self (VFun f) → rebindable self (VFun (Bound f (VObj self))).
Proof.
  intros (f' & [= <-] & Hf). exists (Bound f (VObj self)). split; [done|].
  right. cbn. by destruct Hf as [->| ->].
Qed.

Lemma rebindable_this self f :
  rebindable self (VFun f) → this_context f (VObj self) = VObj self.
Proof.
  intros (f' & [= <-] & Hf). unfold this_context. rewrite resolve_this.
  by destruct Hf as [->| ->].
Qed.

(** One turn of the loop on a member that is a function. *)
Lemma bind_cons_function w self o n rest f :
  heap w !! self = Some (CObject o) →
  object_get o n = VFun f →
  bind run self (n :: rest) w =
  bind run self rest
    (set_heap (<[self := CObject (object_set o n (VFun (Bound f (VObj self))))]> (heap w)) w).
Proof.
  intros Hself Hn. cbn [bind].
  rewrite run_bind, (get_prop_object _ _ _ _ Hself), Hn, run_bind.
  cbn [call_method]. rewrite bool_decide_eq_true_2 by done.
  change (arg 0 [VObj self]) with (VObj self). cbn [mret M_ret].
  rewrite run_bind, (set_prop_object _ _ _ _ _ Hself).
  by rewrite (object_put_function _ _ _ _ _ Hn).
Qed.

(** One turn of the loop on a member [bind] cannot be called on. *)
Lemma bind_cons_unbindable w self n rest :
  unbindable w (field w self n) = true →
  bind run self (n :: rest) w = Throw TypeError w.
Proof.
  intros Hn. cbn [bind]. rewrite run_bind, get_prop_field, run_bind.
  destruct (field w self n) as [| | | | |l|f]; try done.
  cbn [call_method]. rewrite run_bind, get_prop_field.
  cbn in Hn. by destruct (field w l "bind").
Qed.

(** One turn of the loop on a member that is an object with a function of
    its own under the name [bind]: that function is called on the member
    with the instance as argument. *)
Lemma bind_cons_object w self n rest l g :
  field w self n = VObj l →
  field w l "bind" = VFun g →
  bind run self (n :: rest) w =
  match call_fn run g (VObj l) [VObj self] w with
  | Ok b w2 => (set_prop self n b;; bind run self rest) w2
  | Throw e w2 => Throw e w2
  end.
Proof.
  intros Hn Hg. cbn [bind]. rewrite run_bind, get_prop_field, Hn, run_bind.
  cbn [call_method]. by rewrite run_bind, get_prop_field, Hg.
Qed.

Lemma bind_app pre post : ∀ w self,
  bind run self (pre ++ post) w =
  match bind run self pre w with
  | Ok _ w1 => bind run self post w1
  | Throw e w1 => Throw e w1
  end.
Proof.
  induction pre as [|n pre IH]; intros w self; [done|].
  cbn [bind app]. rewrite !run_bind.
  destruct (get_prop (VObj self) n w) as [member w1|]; [|done].
  rewrite !run_bind.
  destruct (call_method run member "bind" [VObj self] w1) as [b w2|]; [|done].
  rewrite !run_bind.
  destruct (set_prop self n b w2) as [[] w3|]; [|done].
  apply IH.
Qed.

(** The loop on members that are all functions still free to be tied to
    the instance. *)
Lemma bind_run names : ∀ w self o,
  heap w !! self = Some (CObject o) →
  (∀ n, n ∈ names → rebindable self (object_get o n)) →
  ∃ o',
    bind run self names w = Ok VUndefined (set_heap (<[self := CObject o']> (heap w)) w) ∧
    inherited o' = inherited o ∧
    (∀ k, k ∉ names → own o' !! k = own o !! k) ∧
    (∀ n, n ∈ names →
          ∃ f g, object_get o n = VFun f ∧ own o' !! n = Some (VFun g) ∧
                 ∀ r, resolve g r = resolve f (VObj self)).
Proof.
  induction names as [|n names IH]; intros w self o Hself Hall.
  - exists o. cbn. rewrite insert_id, set_heap_same by done.
    repeat split; try done. intros n Hn. by apply not_elem_of_nil in Hn.
  - destruct (Hall n) as (f & Hf & Hfree); [left|].
    rewrite (bind_cons_function _ _ _ _ _ _ Hself Hf).
    set (o1 := object_set o n (VFun (Bound f (VObj self)))).
    destruct (IH (set_heap (<[self := CObject o1]> (heap w)) w) self o1)
      as (o' & E & Hinh & Hother & Hnames).
    { by rewrite set_heap_heap, lookup_insert_eq. }
    { intros m Hm. unfold o1. rewrite object_get_set.
      destruct (decide (n = m)) as [->|Hne].
      - apply rebindable_bound. exists f. eauto.
      - apply Hall. by right. }
    rewrite set_heap_heap, set_heap_twice, insert_insert_eq in E.
    exists o'. split; [done|]. split; [done|]. split.
    + intros k Hk. apply not_elem_of_cons in Hk as [Hkn Hk].
      rewrite (Hother k Hk). unfold o1. cbn. by rewrite lookup_insert_ne.
    + intros m Hm. destruct (decide (m ∈ names)) as [Hin|Hout].
      * destruct (Hnames m Hin) as (f1 & g & Hf1 & Hg & Hres).
        unfold o1 in Hf1. rewrite object_get_set in Hf1.
        destruct (decide (n = m)) as [->|Hne].
        -- injection Hf1 as <-. exists f, g. by repeat split.
        -- exists f1, g. by repeat split.
      * apply elem_of_cons in Hm as [->|Hm]; [|done].
        exists f, (Bound f (VObj self)). split; [done|]. split; [|done].
        rewrite (Hother n Hout). unfold o1. cbn. by rewrite lookup_insert_eq.
Qed.

(** C4: after [bind], every named member that was a function not yet tied
    to another object is an own property of the instance holding a function
    that runs with the instance as [this] whatever the receiver of the call,
    and binding it again does not change that. *)
Theorem bind_ties_members_to_instance w self o names :
  heap w !! self = Some (CObject o) →
  (∀ n, n ∈ names → rebindable self (object_get o n)) →
  ∃ w',
    bind run self names w = Ok VUndefined w' ∧
    (∀ n, n ∈ names →
       ∃ f g, field w self n = VFun f ∧
              own_field w' self n = Some (VFun g) ∧
              (∀ r, this_context g r = VObj self) ∧
              (∀ r args w0,
                 outside_call run g r args w0 = outside_call run f (VObj self) args w0) ∧
              (∀ r t, this_context (Bound g t) r = VObj self)) ∧
    (∀ k, k ∉ names → field w' self k = field w self k) ∧
    (∀ l, l ≠ self → heap w' !! l = heap w !! l) ∧
    calls w' = calls w.
Proof.
  intros Hself Hall.
  destruct (bind_run names w self o Hself Hall) as (o' & E & Hinh & Hother & Hnames).
  eexists. split; [exact E|]. split; [|split; [|split]].
  - intros n Hn. destruct (Hnames n Hn) as (f & g & Hf & Hg & Hres).
    assert (∀ r, this_context g r = VObj self) as Hthis.
    { intros r. unfold this_context. rewrite Hres.
      apply rebindable_this. rewrite <-Hf. by apply Hall. }
    exists f, g. unfold field, own_field.
    rewrite Hself, set_heap_heap, lookup_insert_eq.
    split; [done|]. split; [done|]. split; [done|]. split.
    + intros r args w0. unfold outside_call. by rewrite Hres.
    + intros r t. apply Hthis.
  - intros k Hk. unfold field.
    rewrite Hself, set_heap_heap, lookup_insert_eq.
    unfold object_get. by rewrite Hinh, (Hother k Hk).
  - intros l Hl. by rewrite set_heap_heap, lookup_insert_ne.
  - done.
Qed.

(** C2: when [bind] reaches a name whose member is missing, or is a value
    other than a function that offers no function called [bind], it throws a
    [TypeError] there: the names before it have been bound, the name and
    those after it are left as they were, and the error reaches the caller.
    The name [__proto__] is left aside: what is read under it is the
    prototype object, which the state does not hold as a value. When the
    member is an object that has a
    function under the name [bind], that function is called on the member
    with the instance as argument: what it throws reaches the caller, with
    the name left as it was, and what it returns is stored under the name
    before the loop goes on. *)
Theorem bind_fails_fast w self pre name post w1 :
  bind run self pre w = Ok VUndefined w1 →
  name ≠ "__proto__" →
  (unbindable w1 (field w1 self name) = true →
   bind run self (pre ++ name :: post) w = Throw TypeError w1) ∧
  (∀ l g, field w1 self name = VObj l →
          field w1 l "bind" = VFun g →
          bind run self (pre ++ name :: post) w =
          match call_fn run g (VObj l) [VObj self] w1 with
          | Ok b w2 => (set_prop self name b;; bind run self post) w2
          | Throw e w2 => Throw e w2
          end).
Proof.
  intros Hpre _. split.
  - intros Hname. rewrite bind_app, Hpre. by apply bind_cons_unbindable.
  - intros l g Hl Hg. rewrite bind_app, Hpre. by apply bind_cons_object.
Qed.

(** ** Delegation to the mediator *)

Lemma call_fn_run f this args w :
  call_fn run f this args w =
  match outside_call run f this args w with
  | (inl v, (h, e)) => Ok v (World h e (calls w ++ [Call f this args]) (timers w))
  | (inr x, (h, e)) => Throw (Thrown x) (World h e (calls w ++ [Call f this args]) (timers w))
  end.
Proof. unfold call_fn, outside_call. by destruct (resolve f this). Qed.

(** The shape shared by [publish], [subscribe], [unsubscribe] and [scan]:
    one call of the mediator's member, whose value is dropped. *)
Lemma delegate_run w self name f args :
  mediator_member w self name = Some f →
  (mediator ← get_prop (VObj self) "__mediator";
   call_method run mediator name args;;
   mret VUndefined) w =
  match outside_call run f (field w self "__mediator") args w with
  | (inl _, (h, e)) =>
      Ok VUndefined
         (World h e (calls w ++ [Call f (field w self "__mediator") args]) (timers w))
  | (inr x, (h, e)) =>
      Throw (Thrown x)
            (World h e (calls w ++ [Call f (field w self "__mediator") args]) (timers w))
  end.
Proof.
  unfold mediator_member. intros Hm.
  rewrite run_bind, get_prop_field.
  destruct (field w self "__mediator") as [| | | | |m|]; try done.
  destruct (field w m name) as [| | | | | |g] eqn:Hg; try done.
  injection Hm as ->.
  cbn [call_method]. rewrite !run_bind, get_prop_field, Hg, call_fn_run.
  by destruct (outside_call run f (VObj m) args w) as [[v|x] [h e]].
Qed.

(** What a delegation leaves behind. *)
Lemma delegate_effect w self name f args :
  mediator_member w self name = Some f →
  let r := (mediator ← get_prop (VObj self) "__mediator";
            call_method run mediator name args;;
            mret VUndefined) w in
  let out := outside_call run f (field w self "__mediator") args w in
  calls (world_of r) = calls w ++ [Call f (field w self "__mediator") args] ∧
  (heap (world_of r), ext (world_of r)) = out.2 ∧
  timers (world_of r) = timers w ∧
  (∀ v, out.1 = inl v → r = Ok VUndefined (world_of r)) ∧
  (∀ x, out.1 = inr x → r = Throw (Thrown x) (world_of r)).
Proof.
  intros Hm. cbv zeta. rewrite (delegate_run _ _ _ _ _ Hm).
  destruct (outside_call run f (field w self "__mediator") args w)
    as [[v|x] [h e]]; cbn; repeat split; intros; by simplify_eq.
Qed.

Lemma delegate_throws w self name args :
  name ≠ "bind" →
  mediator_member w self name = None →
  (mediator ← get_prop (VObj self) "__mediator";
   call_method run mediator name args;;
   mret VUndefined) w = Throw TypeError w.
Proof.
  unfold mediator_member. intros Hname Hm.
  rewrite run_bind, get_prop_field.
  destruct (field w self "__mediator") as [| | | | |m|f]; try reflexivity.
  - cbn [call_method]. rewrite !run_bind, get_prop_field.
    by destruct (field w m name).
  - cbn [call_method]. rewrite run_bind.
    by rewrite bool_decide_eq_false_2.
Qed.

(** C6: [publish] hands its whole argument list, in order, to the
    mediator's [publish], in one call on the mediator, and does nothing
    else: the state it leaves is the one that call produced. *)
Theorem publish_forwards_arguments w self f args :
  mediator_member w self "publish" = Some f →
  let mediator := field w self "__mediator" in
  let after := world_of (publish run self args w) in
  let out := outside_call run f mediator args w in
  calls after = calls w ++ [Call f mediator args] ∧
  (heap after, ext after) = out.2 ∧
  timers after = timers w ∧
  (out.2.1 !! self = heap w !! self → heap after !! self = heap w !! self) ∧
  (∀ v, out.1 = inl v → publish run self args w = Ok VUndefined after) ∧
  (∀ x, out.1 = inr x → publish run self args w = Throw (Thrown x) after).
Proof.
  intros Hm. cbv zeta. unfold publish.
  destruct (delegate_effect w self "publish" f args Hm) as (Hc & Hs & Ht & Hok & Hthrow).
  cbv zeta in *. repeat split; try done.
  intros Hsame. apply (f_equal fst) in Hs.
  exact (eq_trans (f_equal (fun h => h !! self) Hs) Hsame).
Qed.

(** C9: each of [publish], [subscribe], [unsubscribe] and [scan] makes one
    call, to the mediator's member of the same name, and writes nothing of
    its own: when the code outside leaves the instance and its configuration
    object alone, every field of the instance, the mediator reference
    included, and the resolved configuration are what they were; [scan]
    passes its argument on as it is. *)
Theorem delegation_leaves_instance_untouched
    w self fp fs fu fc args topic callback data :
  mediator_member w self "publish" = Some fp →
  mediator_member w self "subscribe" = Some fs →
  mediator_member w self "unsubscribe" = Some fu →
  mediator_member w self "scan" = Some fc →
  leaves run self →
  (∀ t, field w self "data" = VObj t → leaves run t) →
  let mediator := field w self "__mediator" in
  let kept (r : outcome value) :=
    (∀ k, field (world_of r) self k = field w self k) ∧
    config (world_of r) self = config w self in
  (calls (world_of (publish run self args w)) = calls w ++ [Call fp mediator args] ∧
   kept (publish run self args w)) ∧
  (calls (world_of (subscribe run self topic callback w)) =
     calls w ++ [Call fs mediator [topic; callback; VObj self]] ∧
   kept (subscribe run self topic callback w)) ∧
  (calls (world_of (unsubscribe run self topic callback w)) =
     calls w ++ [Call fu mediator [topic; callback; VObj self]] ∧
   kept (unsubscribe run self topic callback w)) ∧
  (calls (world_of (scan run self data w)) = calls w ++ [Call fc mediator [data]] ∧
   kept (scan run self data w)).
Proof.
  intros Hp Hs Hu Hc Hself Hdata. cbv zeta.
  assert (∀ name f a,
            mediator_member w self name = Some f →
            let r := (mediator ← get_prop (VObj self) "__mediator";
                      call_method run mediator name a;;
                      mret VUndefined) w in
            calls (world_of r) = calls w ++ [Call f (field w self "__mediator") a] ∧
            (∀ k, field (world_of r) self k = field w self k) ∧
            config (world_of r) self = config w self) as Hone.
  { intros name f a Hm.
    destruct (delegate_effect w self name f a Hm) as (Hcalls & Hstate & _).
    cbv zeta in *. split; [done|].
    apply (f_equal fst) in Hstate.
    set (r := (mediator ← get_prop (VObj self) "__mediator";
               call_method run mediator name a;;
               mret VUndefined) w) in *.
    change (heap (world_of r) =
            (outside_call run f (field w self "__mediator") a w).2.1) in Hstate.
    assert (∀ l, leaves run l → heap (world_of r) !! l = heap w !! l) as Hkept.
    { intros l Hl. rewrite Hstate. unfold outside_call. by rewrite Hl. }
    assert (∀ k, field (world_of r) self k = field w self k) as Hfields.
    { intros k. unfold field. by rewrite Hkept. }
    split; [done|]. unfold config. rewrite Hfields. unfold props.
    destruct (field w self "data") as [| | | | |t|] eqn:Ht; try done.
    unfold own_enumerable. by rewrite (Hkept t (Hdata t eq_refl)). }
  split; [exact (Hone "publish" fp args Hp)|].
  split; [exact (Hone "subscribe" fs [topic; callback; VObj self] Hs)|].
  split; [exact (Hone "unsubscribe" fu [topic; callback; VObj self] Hu)|].
  exact (Hone "scan" fc [data] Hc).
Qed.

End Properties.

(** ** [defer] *)

(** X1: [defer] hands the host one [setTimeout] request for the callback,
    with the delay given or 17 when none is, calls nothing itself and returns
    [undefined], not the timer's handle. *)
Theorem defer_queues_one_timer {H : Type} (w : world H) (self : loc) (callback ms : value) :
  defer self callback ms w =
    Ok VUndefined
       (World (heap w) (ext w) (calls w)
              (timers w ++
               [Timer callback (match ms with VUndefined => VNum 17 | _ => ms end)])) ∧
  timers (world_of (defer self callback (arg 1 [callback]) w)) =
    timers w ++ [Timer callback (VNum 17)] ∧
  length (timers (world_of (defer self callback ms w))) = S (length (timers w)).
Proof.
  split; [reflexivity|]. split; [reflexivity|].
  unfold defer, setTimeout. rewrite run_bind. cbn [world_of timers mret M_ret].
  rewrite length_app. cbn. lia.
Qed.

(** ** The host's timers *)

Lemma filter_swap {A : Type} (P Q : A → Prop)
    `{!∀ x, Decision (P x)} `{!∀ x, Decision (Q x)} (l : list A) :
  filter P (filter Q l) = filter Q (filter P l).
Proof.
  induction l as [|x l IH]; [done|].
  rewrite !filter_cons.
  destruct (decide (Q x)), (decide (P x));
    rewrite ?filter_cons, ?decide_True, ?decide_False by done; by rewrite IH.
Qed.

Lemma firings_of_map (id : nat) (now : Z) (l : list pending) :
  filter (fun f => firing_id f = id)
         (List.map (fun p => Firing (pending_id p) (pending_callback p) now) l) =
  List.map (fun p => Firing (pending_id p) (pending_callback p) now)
           (filter (fun p => pending_id p = id) l).
Proof.
  induction l as [|p l IH]; [done|]. cbn [List.map].
  rewrite !filter_cons. cbn [firing_id].
  destruct (decide (pending_id p = id)); cbn [List.map]; by rewrite IH.
Qed.

Lemma pending_of_turn (id : nat) (hst : host) (elapsed : Z) :
  pending_of id (host_turn hst elapsed) =
  filter (fun p => (clock hst + Z.max 0 elapsed < pending_due p)%Z) (pending_of id hst).
Proof. unfold pending_of, host_turn. cbn [queue]. apply filter_swap. Qed.

Lemma firings_of_turn (id : nat) (hst : host) (elapsed : Z) :
  firings_of id (host_turn hst elapsed) =
  firings_of id hst ++
  List.map (fun p => Firing (pending_id p) (pending_callback p)
                            (clock hst + Z.max 0 elapsed))
           (filter (fun p => (pending_due p ≤ clock hst + Z.max 0 elapsed)%Z)
                   (pending_of id hst)).
Proof.
  unfold firings_of, pending_of, host_turn. cbn [fired].
  by rewrite filter_app, firings_of_map, filter_swap.
Qed.

Lemma host_turn_clock (hst : host) (elapsed : Z) :
  (clock hst ≤ clock (host_turn hst elapsed))%Z.
Proof. unfold host_turn. cbn [clock]. lia. Qed.

Lemma host_run_clock (turns : list Z) : ∀ hst,
  (clock hst ≤ clock (host_run hst turns))%Z.
Proof.
  induction turns as [|e turns IH]; intros hst; [done|].
  unfold host_run in *. cbn [foldl].
  etrans; [apply (host_turn_clock hst e)|apply IH].
Qed.

(** A request that has been run is not run again. *)
Lemma host_run_fired (id : nat) (turns : list Z) : ∀ hst,
  pending_of id hst = [] →
  pending_of id (host_run hst turns) = [] ∧
  firings_of id (host_run hst turns) = firings_of id hst.
Proof.
  induction turns as [|e turns IH]; intros hst Hp; [done|].
  unfold host_run in *. cbn [foldl].
  destruct (IH (host_turn hst e)) as [Hp' Hf'].
  { by rewrite pending_of_turn, Hp. }
  split; [done|]. rewrite Hf', firings_of_turn, Hp. cbn. apply app_nil_r.
Qed.

(** One turn of the event loop on a request that waits: it goes on
    waiting while it is not due, and is run, once, as soon as it is. *)
Lemma host_turn_waiting (id : nat) (callback : value) (due : Z) (hst : host) (e : Z) :
  pending_of id hst = [Pending id callback due] →
  firings_of id hst = [] →
  ((clock (host_turn hst e) < due)%Z ∧
   pending_of id (host_turn hst e) = [Pending id callback due] ∧
   firings_of id (host_turn hst e) = []) ∨
  ((due ≤ clock (host_turn hst e))%Z ∧
   pending_of id (host_turn hst e) = [] ∧
   firings_of id (host_turn hst e) = [Firing id callback (clock (host_turn hst e))]).
Proof.
  intros Hp Hf. rewrite pending_of_turn, firings_of_turn, Hp, Hf.
  rewrite !filter_cons, !filter_nil. cbn [pending_due host_turn clock].
  destruct (decide (due ≤ clock hst + Z.max 0 e)%Z) as [Hdue|Hdue].
  - right. rewrite decide_False by lia. done.
  - left. rewrite decide_True by lia. split; [lia|done].
Qed.

(** A request the host has accepted, over any sequence of turns. *)
Lemma host_run_waiting (id : nat) (callback : value) (due : Z) (turns : list Z) :
  ∀ hst,
    pending_of id hst = [Pending id callback due] →
    firings_of id hst = [] →
    (firings_of id (host_run hst turns) = [] ∧
     (turns = [] ∨ (clock (host_run hst turns) < due)%Z)) ∨
    (turns ≠ [] ∧
     ∃ t, firings_of id (host_run hst turns) = [Firing id callback t] ∧
          (due ≤ t ≤ clock (host_run hst turns))%Z).
Proof.
  induction turns as [|e turns IH]; intros hst Hp Hf.
  - left. split; [done|by left].
  - change (host_run hst (e :: turns)) with (host_run (host_turn hst e) turns).
    destruct (host_turn_waiting id callback due hst e Hp Hf)
      as [(Hlt & Hp' & Hf')|(Hdue & Hp' & Hf')].
    + destruct (IH _ Hp' Hf') as [[Hnone Hwhen]|[_ Hone]].
      * left. split; [done|]. right. by destruct Hwhen as [->|?].
      * by right.
    + right. split; [done|].
      destruct (host_run_fired id turns _ Hp') as [_ Hsame].
      exists (clock (host_turn hst e)). rewrite Hsame. split; [done|].
      split; [done|apply host_run_clock].
Qed.

Lemma host_accept_waiting (id : nat) (t : timer) (hst : host) :
  unused_id id hst →
  pending_of id (host_accept id t hst) =
    [Pending id (timer_callback t) (clock hst + delay_ms (timer_delay t))] ∧
  firings_of id (host_accept id t hst) = [].
Proof.
  intros [Hq Hf]. unfold pending_of, firings_of, host_accept. cbn [queue fired].
  rewrite filter_app, filter_cons, filter_nil, decide_True by done.
  by rewrite !filter_none.
Qed.

(** C10: [defer] makes one request to the host, for the callback and the
    delay given, 17 when none is, calls nothing itself and returns
    [undefined], no handle. On the host of the specification that request
    runs the callback exactly once, in a turn of the event loop after the
    call has returned: nothing is run when the request is accepted, nothing
    before the delay has passed, and one run, at a time not earlier than
    the delay, is on record from the first turn at which the delay has
    passed. *)
Theorem defer_schedules_once {H : Type} (w : world H) (self : loc)
    (callback ms : value) (hst : host) (id : nat) (turns : list Z) :
  unused_id id hst →
  let delay := match ms with VUndefined => VNum 17 | _ => ms end in
  let due := (clock hst + delay_ms delay)%Z in
  let accepted := host_accept id (Timer callback delay) hst in
  let after := host_run accepted turns in
  defer self callback ms w =
    Ok VUndefined
       (World (heap w) (ext w) (calls w) (timers w ++ [Timer callback delay])) ∧
  firings_of id accepted = [] ∧
  (turns = [] ∨ (clock after < due)%Z → firings_of id after = []) ∧
  (turns ≠ [] → (due ≤ clock after)%Z →
   ∃ t, firings_of id after = [Firing id callback t] ∧ (due ≤ t ≤ clock after)%Z) ∧
  (ms = VUndefined → due = (clock hst + 17)%Z) ∧
  (∀ d, (0 ≤ d)%Z → ms = VNum d → due = (clock hst + d)%Z).
Proof.
  intros Hid delay due accepted after.
  destruct (host_accept_waiting id (Timer callback delay) hst Hid) as [Hp Hf].
  split; [reflexivity|]. split; [exact Hf|].
  destruct (host_run_waiting id callback due turns accepted Hp Hf)
    as [[Hnone Hwhen]|[Hturns (t & Hone & Ht)]].
  - split; [done|]. split.
    + intros Hne Hdue. destruct Hwhen as [->|Hlt]; [done|]. fold after in Hlt. lia.
    + split.
      * intros ->. reflexivity.
      * intros d Hd ->. unfold due. cbn. lia.
  - split.
    + intros [->|Hlt]; [done|]. fold after in Ht. lia.
    + split; [by exists t|]. split.
      * intros ->. reflexivity.
      * intros d Hd ->. unfold due. cbn. lia.
Qed.

(** ** The mediator of the specification *)

Lemma filter_unregistered (r : registration) (rs : list registration) :
  existsb (fun x => same_registration x r) rs = false →
  List.filter (fun x => negb (same_registration x r)) rs = rs.
Proof.
  induction rs as [|x rs IH]; [done|]. cbn.
  intros [Hx Hrs]%orb_false_elim. rewrite Hx. cbn. f_equal. by apply IH.
Qed.

Lemma mediator_member_spec (w : world (list registration)) (self m : loc) :
  field w self "__mediator" = VObj m →
  heap w !! m = Some (CObject mediator_object) →
  mediator_member w self "subscribe" = Some (Plain "mediator.subscribe") ∧
  mediator_member w self "unsubscribe" = Some (Plain "mediator.unsubscribe").
Proof.
  intros Hm Hobj. unfold mediator_member. rewrite Hm. unfold field. rewrite Hobj.
  split; reflexivity.
Qed.

(** C5: [subscribe] and [unsubscribe] each make one call of the mediator's
    member of that name with exactly the topic, the callback as received and
    the instance as owner, whatever the mediator is; and on the mediator the
    specification describes, unsubscribing a callback that is not registered
    under the owner and the topic returns normally and changes nothing,
    while the call with the owner is still made. *)
Theorem subscriptions_carry_owner :
  (∀ (H : Type) run (w : world H) self fs fu topic callback,
     mediator_member w self "subscribe" = Some fs →
     mediator_member w self "unsubscribe" = Some fu →
     calls (world_of (subscribe run self topic callback w)) =
       calls w ++ [Call fs (field w self "__mediator") [topic; callback; VObj self]] ∧
     calls (world_of (unsubscribe run self topic callback w)) =
       calls w ++ [Call fu (field w self "__mediator") [topic; callback; VObj self]] ∧
     (∀ v, (outside_call run fu (field w self "__mediator")
                         [topic; callback; VObj self] w).1 = inl v →
           succeeded (unsubscribe run self topic callback w) = true)) ∧
  (∀ (w : world (list registration)) self m topic callback,
     field w self "__mediator" = VObj m →
     heap w !! m = Some (CObject mediator_object) →
     ext (world_of (subscribe mediator_run self topic callback w)) =
       ext w ++ [Registration topic callback (VObj self)] ∧
     (registered topic callback (VObj self) (ext w) = false →
      unsubscribe mediator_run self topic callback w =
      Ok VUndefined
         (World (heap w) (ext w)
                (calls w ++ [Call (Plain "mediator.unsubscribe") (VObj m)
                                  [topic; callback; VObj self]])
                (timers w)))).
Proof.
  split.
  - intros H run w self fs fu topic callback Hs Hu.
    destruct (delegate_effect run w self "subscribe" fs [topic; callback; VObj self] Hs)
      as (Hcs & _).
    destruct (delegate_effect run w self "unsubscribe" fu [topic; callback; VObj self] Hu)
      as (Hcu & _ & _ & Hok & _).
    cbv zeta in *. split; [exact Hcs|]. split; [exact Hcu|].
    intros v Hv. unfold unsubscribe. by rewrite (Hok v Hv).
  - intros w self m topic callback Hm Hobj.
    destruct (mediator_member_spec w self m Hm Hobj) as [Hs Hu].
    split.
    + unfold subscribe. rewrite (delegate_run _ _ _ _ _ _ Hs). by rewrite Hm.
    + intros Hreg. unfold unsubscribe.
      rewrite (delegate_run _ _ _ _ _ _ Hu), Hm.
      unfold outside_call, mediator_run. cbn [resolve fst snd].
      rewrite bool_decide_eq_false_2, bool_decide_eq_true_2 by done.
      unfold registered in Hreg. cbn [fst snd heap ext].
      change (arg 0 [topic; callback; VObj self]) with topic.
      change (arg 1 [topic; callback; VObj self]) with callback.
      change (arg 2 [topic; callback; VObj self]) with (VObj self).
      by rewrite (filter_unregistered _ _ Hreg).
Qed.

(** C8: the resolved mapping depends on the defaults, the attributes and the
    override only: two constructions that agree on these three, in any two
    states and with any other arguments, resolve the same mapping; and a
    further run of [_configureData] on the instance leaves the mapping as it
    is. *)
Theorem resolution_is_pure_and_idempotent
    {H1 H2 : Type} toUpperCase jq1 jq2 proto1 proto2 defaultData
    (w1 : world H1) (w2 : world H2) node1 node2 attrs o1 o2 m1 m2 :
  heap w1 !! node1 = Some (CNode attrs) →
  heap w2 !! node2 = Some (CNode attrs) →
  allocated w1 o1 →
  allocated w2 o2 →
  props w1 o1 = props w2 o2 →
  ∃ self1 w1' self2 w2',
    constructor toUpperCase jq1 proto1 defaultData [VObj node1; o1; m1] w1 = Ok self1 w1' ∧
    constructor toUpperCase jq2 proto2 defaultData [VObj node2; o2; m2] w2 = Ok self2 w2' ∧
    config w1' self1 = config w2' self2 ∧
    ∃ w1'',
      _configureData toUpperCase defaultData self1 w1' = Ok tt w1'' ∧
      config w1'' self1 = config w1' self1.
Proof.
  intros Hn1 Hn2 Ho1 Ho2 Hsame.
  destruct (constructor_config toUpperCase jq1 proto1 defaultData w1
              [VObj node1; o1; m1] node1 attrs)
    as (self1 & w1' & E1 & Hc1 & Hel & Hframe & Hcfg1); [done..|].
  destruct (constructor_config toUpperCase jq2 proto2 defaultData w2
              [VObj node2; o2; m2] node2 attrs)
    as (self2 & w2' & E2 & Hc2 & _); [done..|].
  cbn in Hc1, Hc2, Hcfg1.
  destruct (configureData_again toUpperCase defaultData w1' self1 node1 attrs _ Hel
              ltac:(by rewrite Hframe) Hcfg1) as (w1'' & E & Hc).
  exists self1, w1', self2, w2'. split; [done|]. split; [done|].
  rewrite Hc1, Hc2, Hsame.
  split; [done|]. exists w1''. split; [done|].
  by rewrite (configured_config _ _ _ Hc), assigned_idempotent, Hsame.
Qed.

(** ** The claims at sample states *)







(** [bind("foo", "missing", "bar")] binds [foo] and throws at [missing]. *)
Lemma bind_stops_at_missing :
  bind idle_run 1%positive ["foo"; "missing"; "bar"] methods_world =
  Throw TypeError foo_bound_world.
Proof.
  refine (proj1 (bind_fails_fast idle_run methods_world 1%positive ["foo"] "missing"
                   ["bar"] foo_bound_world _ _) _).
  - vm_compute. reflexivity.
  - done.
  - vm_compute. reflexivity.
Defined.

(** A member that is an object owning a function called [bind] is not
    callable, and [bind] on its name does not fail: the object's [bind] is
    called and what it returns is stored in place of the member. *)
Lemma bind_accepts_object_owning_bind :
  is_function (field helper_world 1%positive "helper") = false ∧
  succeeded (bind idle_run 1%positive ["helper"] helper_world) = true ∧
  field (world_of (bind idle_run 1%positive ["helper"] helper_world)) 1%positive "helper"
    = VUndefined.
Proof. vm_compute. repeat split; reflexivity. Qed.

(** [bind("foo", "bar")] on an instance with the methods [foo] and [bar]. *)
Lemma bind_foo_bar :
  ∃ w',
    bind idle_run 1%positive ["foo"; "bar"] methods_world = Ok VUndefined w' ∧
    ∀ n, n ∈ ["foo"; "bar"] →
         ∃ f g, field methods_world 1%positive n = VFun f ∧
                own_field w' 1%positive n = Some (VFun g) ∧
                ∀ r, this_context g r = VObj 1%positive.
Proof.
  destruct (bind_ties_members_to_instance idle_run methods_world 1%positive
              methods_object ["foo"; "bar"])
    as (w' & E & Hnames & _).
  - reflexivity.
  - intros n Hn.
    apply elem_of_cons in Hn as [->|Hn];
      [|apply elem_of_cons in Hn as [->|Hn]; [|by apply not_elem_of_nil in Hn]];
      (eexists; split; [reflexivity|left; reflexivity]).
  - exists w'. split; [exact E|]. intros n Hn.
    destruct (Hnames n Hn) as (f & g & Hf & Hg & Hthis & _).
    exists f, g. split; [exact Hf|]. split; [exact Hg|exact Hthis].
Defined.

(** A member that is a function bound to another object before is callable,
    and after [bind] on its name the stored function still runs with that
    other object as [this]. *)
Lemma bind_keeps_earlier_binding :
  is_function (field prebound_world 1%positive "foo") = true ∧
  succeeded (bind idle_run 1%positive ["foo"] prebound_world) = true ∧
  own_field (world_of (bind idle_run 1%positive ["foo"] prebound_world)) 1%positive "foo"
    = Some (VFun (Bound prebound (VObj 1%positive))) ∧
  this_context (Bound prebound (VObj 1%positive)) VUndefined = VObj 2%positive.
Proof. vm_compute. repeat split; reflexivity. Qed.

(** [publish("ready", 1, 2)] on an instance of the sample mediator. *)
Lemma publish_on_mediated :
  calls (world_of (publish mediator_run 1%positive [VStr "ready"; VNum 1; VNum 2]
                           mediated_world)) =
    [Call (Plain "mediator.publish") (VObj 2%positive) [VStr "ready"; VNum 1; VNum 2]] ∧
  heap (world_of (publish mediator_run 1%positive [VStr "ready"; VNum 1; VNum 2]
                          mediated_world)) !! 1%positive =
    heap mediated_world !! 1%positive.
Proof.
  destruct (publish_forwards_arguments mediator_run mediated_world 1%positive
              (Plain "mediator.publish") [VStr "ready"; VNum 1; VNum 2] eq_refl)
    as (Hc & _ & _ & Hframe & _).
  split; [exact Hc|]. apply Hframe. reflexivity.
Defined.

Lemma mediator_run_frame (l : loc) : leaves mediator_run l.
Proof.
  intros id t a s. unfold mediator_run.
  destruct (bool_decide (id = "mediator.subscribe")); [done|].
  by destruct (bool_decide (id = "mediator.unsubscribe")).
Qed.

(** [scan("x")] on an instance of the sample mediator. *)
Lemma scan_on_mediated :
  calls (world_of (scan mediator_run 1%positive (VStr "x") mediated_world)) =
    [Call (Plain "mediator.scan") (VObj 2%positive) [VStr "x"]] ∧
  field (world_of (scan mediator_run 1%positive (VStr "x") mediated_world))
        1%positive "__mediator" = VObj 2%positive ∧
  config (world_of (scan mediator_run 1%positive (VStr "x") mediated_world)) 1%positive =
    config mediated_world 1%positive.
Proof.
  destruct (delegation_leaves_instance_untouched mediator_run mediated_world 1%positive
              (Plain "mediator.publish") (Plain "mediator.subscribe")
              (Plain "mediator.unsubscribe") (Plain "mediator.scan")
              [] VUndefined VUndefined (VStr "x")
              eq_refl eq_refl eq_refl eq_refl (mediator_run_frame 1%positive)
              (fun t _ => mediator_run_frame t))
    as (_ & _ & _ & Hc & Hf & Hcfg).
  split; [exact Hc|]. split; [exact (Hf "__mediator")|exact Hcfg].
Defined.

(** Unsubscribing a callback that was never subscribed. *)
Lemma unsubscribe_unregistered :
  unsubscribe mediator_run 1%positive (VStr "ready") (VFun (Plain "other")) mediated_world =
  Ok VUndefined
     (World (heap mediated_world) (ext mediated_world)
            [Call (Plain "mediator.unsubscribe") (VObj 2%positive)
                  [VStr "ready"; VFun (Plain "other"); VObj 1%positive]]
            []).
Proof.
  exact (proj2 (proj2 subscriptions_carry_owner mediated_world 1%positive 2%positive
                      (VStr "ready") (VFun (Plain "other")) eq_refl eq_refl)
               eq_refl).
Defined.

(** The scenario constructed twice, with and without [jQuery] and with
    different class members and mediators. *)
Lemma scenario_resolves_alike :
  ∃ self1 w1' self2 w2',
    constructor ascii_toUpperCase None ∅ (Some scenario_defaults)
                [VObj 1%positive; VObj 2%positive; VNull] scenario_world = Ok self1 w1' ∧
    constructor ascii_toUpperCase (Some (fun _ => Object ∅ ∅ true))
                (inherited methods_object) (Some scenario_defaults)
                [VObj 1%positive; VObj 2%positive; VUndefined] scenario_world
      = Ok self2 w2' ∧
    config w1' self1 = config w2' self2 ∧
    ∃ w1'',
      _configureData ascii_toUpperCase (Some scenario_defaults) self1 w1' = Ok tt w1'' ∧
      config w1'' self1 = config w1' self1.
Proof.
  apply (resolution_is_pure_and_idempotent ascii_toUpperCase None
           (Some (fun _ => Object ∅ ∅ true))
           ∅ (inherited methods_object) (Some scenario_defaults)
           scenario_world scenario_world 1%positive 1%positive scenario_attrs).
  - reflexivity.
  - reflexivity.
  - eexists. reflexivity.
  - eexists. reflexivity.
  - reflexivity.
Defined.

(** [defer(tick)] at time 100 on a host that holds another request: after
    turns of the event loop 5 and 20 milliseconds later the callback has
    been run once, not before time 117. *)
Lemma defer_on_busy_host :
  unused_id 2 busy_host ∧
  defer 1%positive (VFun (Plain "tick")) VUndefined bare_world =
    Ok VUndefined
       (World (heap bare_world) tt [] [Timer (VFun (Plain "tick")) (VNum 17)]) ∧
  firings_of 2 (host_run (host_accept 2 (Timer (VFun (Plain "tick")) (VNum 17)) busy_host)
                         [5%Z]) = [] ∧
  ∃ t, firings_of 2 (host_run (host_accept 2 (Timer (VFun (Plain "tick")) (VNum 17))
                                           busy_host)
                              [5%Z; 20%Z]) = [Firing 2 (VFun (Plain "tick")) t] ∧
       (117 ≤ t)%Z.
Proof.
  assert (unused_id 2 busy_host) as Hid.
  { split; repeat constructor. cbn. lia. }
  split; [exact Hid|].
  destruct (defer_schedules_once bare_world 1%positive (VFun (Plain "tick")) VUndefined
              busy_host 2 [5%Z] Hid) as (Hdefer & _ & Hbefore & _).
  destruct (defer_schedules_once bare_world 1%positive (VFun (Plain "tick")) VUndefined
              busy_host 2 [5%Z; 20%Z] Hid) as (_ & _ & _ & Hafter & _).
  split; [exact Hdefer|]. split.
  - apply Hbefore. right. vm_compute. reflexivity.
  - destruct Hafter as (t & Ht & Hdue & _).
    + discriminate.
    + vm_compute. discriminate.
    + exists t. split; [exact Ht|]. vm_compute in Hdue. exact Hdue.
Defined.

(** * Further properties of the class *)

Section Coverage.

Context {H : Type}.
Variable run :
  jsstring → value → list value → gmap loc cell * H →
  (value + value) * (gmap loc cell * H).
Variable toUpperCase : N → list N.
Variable jQuery : option (value → object).
Variable proto : gmap jsstring value.
Variable defaultData : option (gmap jsstring value).

#[local] Existing Instance M_ret.
#[local] Existing Instance M_bind.

Implicit Types (w : world H) (l self : loc) (h : gmap loc cell).

Lemma attributes_of_throws w el :
  (∀ l attrs, el = VObj l → heap w !! l ≠ Some (CNode attrs)) →
  attributes_of el w = Throw TypeError w.
Proof.
  intros Hel. destruct el as [| | | | |l|]; try reflexivity.
  unfold attributes_of. rewrite run_bind. cbn.
  destruct (heap w !! l) as [[o|attrs]|] eqn:Hl; try reflexivity.
  by destruct (Hel l attrs).
Qed.

(** [_configureData] on an instance whose [el] is no DOM element: the
    [TypeError] is thrown once [DOMData] has been allocated. *)
Lemma configureData_throws w self o :
  heap w !! self = Some (CObject o) →
  (∀ l attrs, object_get o "el" = VObj l → heap w !! l ≠ Some (CNode attrs)) →
  ∃ d, heap w !! d = None ∧
       _configureData toUpperCase defaultData self w =
       Throw TypeError (set_heap (<[d := literal ∅]> (heap w)) w).
Proof.
  intros Hself Hel. unfold _configureData.
  destruct (alloc_fresh (literal ∅) w) as (d & Hd & Ed).
  rewrite run_bind, Ed.
  assert (d ≠ self) as Hds by congruence.
  rewrite run_bind, (get_prop_object _ self o)
    by (by rewrite set_heap_heap, lookup_insert_ne).
  rewrite run_bind, attributes_of_throws; [by exists d|].
  intros l attrs El. rewrite set_heap_heap.
  destruct (decide (l = d)) as [->|Hne].
  - by rewrite lookup_insert_eq.
  - rewrite lookup_insert_ne by done. by apply Hel.
Qed.

(** ** Construction: errors, ownership, isolation *)

(** X2: the constructor does not validate its first argument: on a value
    that is no DOM element (missing, a primitive, a function, or an object
    without [attributes]) it throws the [TypeError] of [this.el.attributes]
    or of the [forEach] over it, having queued no timer and touched no
    object that existed; when [jQuery] is defined this is stated for the
    values [jQuery] only wraps, which are neither strings nor functions. *)
Theorem constructor_without_element_throws w args :
  lacks_attributes w (arg 0 args) = true →
  jQuery = None ∨ selector_or_callback (arg 0 args) = false →
  ∃ w',
    constructor toUpperCase jQuery proto defaultData args w = Throw TypeError w' ∧
    timers w' = timers w ∧ ext w' = ext w ∧
    ∀ l, is_Some (heap w !! l) → heap w' !! l = heap w !! l.
Proof.
  intros Hel _.
  destruct (constructor_prefix toUpperCase jQuery proto defaultData w args)
    as (self & o1 & h1 & Hfresh & Hself & E & Hel1 & _ & _ & Hframe & _).
  destruct (configureData_throws (set_heap h1 w) self o1 Hself) as (d & Hd & Ethrow).
  - intros l attrs El. rewrite Hel1 in El. rewrite El in Hel. cbn in Hel.
    rewrite set_heap_heap.
    destruct (heap w !! l) as [[o|]|] eqn:Hl; try done.
    rewrite Hframe, Hl by eauto. done.
  - rewrite E, run_bind, Ethrow. eexists. split; [reflexivity|].
    repeat split. intros l Hl. rewrite !set_heap_heap in *.
    rewrite lookup_insert_ne; [by apply Hframe|].
    intros ->. rewrite Hframe in Hd by done. rewrite Hd in Hl. by destruct Hl.
Qed.

(** X3: the configuration object behind [this.data] is built by the
    constructor: it is a new object, never the override that was passed in,
    and neither the override nor the node nor any other object that existed
    is written to; no timer is queued. *)
Theorem constructor_builds_own_configuration w args node attrs :
  arg 0 args = VObj node →
  heap w !! node = Some (CNode attrs) →
  allocated w (arg 1 args) →
  ∃ self t w',
    constructor toUpperCase jQuery proto defaultData args w = Ok self w' ∧
    heap w !! self = None ∧
    field w' self "data" = VObj t ∧
    heap w !! t = None ∧
    arg 1 args ≠ VObj t ∧
    (∀ l, is_Some (heap w !! l) → heap w' !! l = heap w !! l) ∧
    timers w' = timers w ∧ ext w' = ext w.
Proof.
  intros Harg Hnode Hdata.
  destruct (constructor_outcome toUpperCase jQuery proto defaultData
              w args node attrs Harg Hnode Hdata)
    as (self & t & ot & w' & E & Hs & Ht & _ & Hd & _ & _ & _ & _ & _ & Hframe
        & He & Hc & Htm).
  exists self, t, w'. repeat split; try done.
  intros Eo. rewrite Eo in Hdata. cbn in Hdata. rewrite Ht in Hdata. by destruct Hdata.
Qed.

(** X4: [this.$el] exists exactly when the [jQuery] global is defined, and
    is then a new wrapper built from the node stored in [this.el]. *)
Theorem constructor_wraps_element_when_jQuery w args node attrs :
  arg 0 args = VObj node →
  heap w !! node = Some (CNode attrs) →
  allocated w (arg 1 args) →
  ∃ self w',
    constructor toUpperCase jQuery proto defaultData args w = Ok self w' ∧
    field w' self "el" = VObj node ∧
    match jQuery with
    | Some wrap =>
        ∃ j, heap w !! j = None ∧
             own_field w' self "$el" = Some (VObj j) ∧
             heap w' !! j = Some (CObject (wrap (VObj node)))
    | None => own_field w' self "$el" = None
    end.
Proof.
  intros Harg Hnode Hdata.
  destruct (constructor_outcome toUpperCase jQuery proto defaultData
              w args node attrs Harg Hnode Hdata)
    as (self & t & ot & w' & E & _ & _ & _ & _ & Hel & _ & _ & _ & Hjq & _).
  by exists self, w'.
Qed.

(** X5: an override that is [null], [undefined], a boolean or a number
    contributes no key: the configuration is the defaults overlaid by the
    attribute entries, as when no override is passed. *)
Theorem constructor_ignores_primitive_override w args node attrs :
  arg 0 args = VObj node →
  heap w !! node = Some (CNode attrs) →
  plain_primitive (arg 1 args) = true →
  ∃ self w',
    constructor toUpperCase jQuery proto defaultData args w = Ok self w' ∧
    config w' self = overlay (default ∅ defaultData) (dom_data toUpperCase attrs).
Proof.
  intros Harg Hnode Hprim.
  destruct (constructor_config toUpperCase jQuery proto defaultData w args node attrs)
    as (self & w' & E & Hcfg & _); [done..| |].
  { by destruct (arg 1 args). }
  exists self, w'. split; [done|]. rewrite Hcfg.
  replace (props w (arg 1 args)) with (∅ : gmap jsstring value)
    by (by destruct (arg 1 args)).
  rewrite assigned_union by (by left). apply (left_id_L ∅ (∪)).
Qed.

(** X6: two constructions in a row do not interfere, even on the same
    node and the same override object: the instances and their
    configuration objects are pairwise distinct, and the second
    construction leaves every field and the configuration of the first
    instance as they were. *)
Theorem constructions_do_not_interfere w args1 args2 node1 node2 attrs1 attrs2 :
  arg 0 args1 = VObj node1 → heap w !! node1 = Some (CNode attrs1) →
  allocated w (arg 1 args1) →
  arg 0 args2 = VObj node2 → heap w !! node2 = Some (CNode attrs2) →
  allocated w (arg 1 args2) →
  ∃ self1 w1 self2 w2 t1 t2,
    constructor toUpperCase jQuery proto defaultData args1 w = Ok self1 w1 ∧
    constructor toUpperCase jQuery proto defaultData args2 w1 = Ok self2 w2 ∧
    self1 ≠ self2 ∧
    field w2 self1 "data" = VObj t1 ∧ field w2 self2 "data" = VObj t2 ∧ t1 ≠ t2 ∧
    (∀ k, field w2 self1 k = field w1 self1 k) ∧
    config w2 self1 = config w1 self1.
Proof.
  intros Ha1 Hn1 Ho1 Ha2 Hn2 Ho2.
  destruct (constructor_outcome toUpperCase jQuery proto defaultData
              w args1 node1 attrs1 Ha1 Hn1 Ho1)
    as (self1 & t1 & ot1 & w1 & E1 & _ & _ & _ & Hd1 & _ & _ & Ht1 & _ & _ & Hframe1 & _).
  assert (allocated w1 (arg 1 args2)) as Ho2'.
  { destruct (arg 1 args2) as [| | | | |x|]; try done. cbn in *. by rewrite Hframe1. }
  destruct (constructor_outcome toUpperCase jQuery proto defaultData
              w1 args2 node2 attrs2 Ha2)
    as (self2 & t2 & ot2 & w2 & E2 & Hs2 & Hf2 & _ & Hd2 & _ & _ & Ht2 & _ & _ & Hframe2 & _);
    [by rewrite Hframe1|done|].
  assert (is_Some (heap w1 !! self1)) as Hin1.
  { unfold field in Hd1. by destruct (heap w1 !! self1). }
  assert (∀ k, field w2 self1 k = field w1 self1 k) as Hfields.
  { intros k. unfold field. by rewrite Hframe2. }
  exists self1, w1, self2, w2, t1, t2.
  split; [done|]. split; [done|].
  split; [intros ->; rewrite Hs2 in Hin1; by destruct Hin1|].
  split; [by rewrite Hfields|]. split; [done|].
  split; [intros ->; congruence|]. split; [done|].
  unfold config. rewrite Hfields, Hd1. unfold props. cbn.
  by rewrite Hframe2 by (by rewrite Ht1).
Qed.

(** X7: once resolved, a key other than [__proto__] keeps its value: a
    later [_configureData], whatever the attributes of the node have
    become, changes no such key the configuration holds and only adds keys
    it lacks, from the attributes first and the defaults second. *)
Theorem configuration_is_sticky w self node attrs X :
  field w self "el" = VObj node →
  heap w !! node = Some (CNode attrs) →
  configured w self X →
  ∃ w',
    _configureData toUpperCase defaultData self w = Ok tt w' ∧
    (∀ k v, k ≠ "__proto__" →
            config w self !! k = Some v → config w' self !! k = Some v) ∧
    (∀ k, config w self !! k = None →
          config w' self !! k =
          overlay (default ∅ defaultData) (dom_data toUpperCase attrs) !! k).
Proof.
  intros Hel Hnode Hcfg.
  destruct (configureData_again toUpperCase defaultData w self node attrs X Hel Hnode Hcfg)
    as (w' & E & Hcfg').
  exists w'. split; [done|].
  rewrite (configured_config _ _ _ Hcfg), (configured_config _ _ _ Hcfg').
  split.
  - intros k v Hk Hv. by rewrite assigned_lookup, lookup_union, Hv, union_Some_l.
  - intros k Hk. by apply assigned_lookup_none.
Qed.

(** ** Delegation: missing mediator, results, exceptions *)

(** X8: the class does not validate its mediator: on an instance whose
    mediator is missing, is a primitive, or is an object that offers no
    function under the name, [publish], [subscribe], [unsubscribe] and
    [scan] throw a [TypeError] at once, having called nothing and changed
    nothing. *)
Theorem delegation_without_mediator_throws w self args topic callback data :
  is_function (field w self "__mediator") = false →
  (mediator_member w self "publish" = None →
   publish run self args w = Throw TypeError w) ∧
  (mediator_member w self "subscribe" = None →
   subscribe run self topic callback w = Throw TypeError w) ∧
  (mediator_member w self "unsubscribe" = None →
   unsubscribe run self topic callback w = Throw TypeError w) ∧
  (mediator_member w self "scan" = None →
   scan run self data w = Throw TypeError w).
Proof. intros _. repeat split; intros Hm; by apply delegate_throws. Qed.

(** X9: [subscribe], [unsubscribe] and [scan] return [undefined] whatever
    the mediator's function returns, and what that function throws reaches
    the caller as it is, after the one call. *)
Theorem delegation_drops_result_and_passes_exception
    w self fs fu fc topic callback data :
  mediator_member w self "subscribe" = Some fs →
  mediator_member w self "unsubscribe" = Some fu →
  mediator_member w self "scan" = Some fc →
  let mediator := field w self "__mediator" in
  let after f a h e := World h e (calls w ++ [Call f mediator a]) (timers w) in
  (∀ v h e, outside_call run fs mediator [topic; callback; VObj self] w = (inl v, (h, e)) →
     subscribe run self topic callback w =
     Ok VUndefined (after fs [topic; callback; VObj self] h e)) ∧
  (∀ x h e, outside_call run fs mediator [topic; callback; VObj self] w = (inr x, (h, e)) →
     subscribe run self topic callback w =
     Throw (Thrown x) (after fs [topic; callback; VObj self] h e)) ∧
  (∀ v h e, outside_call run fu mediator [topic; callback; VObj self] w = (inl v, (h, e)) →
     unsubscribe run self topic callback w =
     Ok VUndefined (after fu [topic; callback; VObj self] h e)) ∧
  (∀ x h e, outside_call run fu mediator [topic; callback; VObj self] w = (inr x, (h, e)) →
     unsubscribe run self topic callback w =
     Throw (Thrown x) (after fu [topic; callback; VObj self] h e)) ∧
  (∀ v h e, outside_call run fc mediator [data] w = (inl v, (h, e)) →
     scan run self data w = Ok VUndefined (after fc [data] h e)) ∧
  (∀ x h e, outside_call run fc mediator [data] w = (inr x, (h, e)) →
     scan run self data w = Throw (Thrown x) (after fc [data] h e)).
Proof.
  intros Hs Hu Hc. cbv zeta. unfold subscribe, unsubscribe, scan.
  rewrite (delegate_run run _ _ _ _ _ Hs), (delegate_run run _ _ _ _ _ Hu),
    (delegate_run run _ _ _ _ _ Hc).
  repeat split; intros ? h e ->; reflexivity.
Qed.

(** ** [bind]: composition *)

(** X10: [bind] handles its names one after the other: binding a list of
    names is binding a first part of it and then, in the state this leaves,
    the rest; when the first part throws, the rest is not looked at. *)
Theorem bind_in_two_calls w self names1 names2 :
  bind run self (names1 ++ names2) w =
  match bind run self names1 w with
  | Ok _ w1 => bind run self names2 w1
  | Throw e w1 => Throw e w1
  end.
Proof.
  revert w. induction names1 as [|n names1 IH]; intros w; [done|].
  cbn [bind app]. rewrite !run_bind.
  destruct (get_prop (VObj self) n w) as [member w1|]; [|done].
  rewrite !run_bind.
  destruct (call_method run member "bind" [VObj self] w1) as [b w2|]; [|done].
  rewrite !run_bind.
  destruct (set_prop self n b w2) as [[] w3|]; [|done].
  apply IH.
Qed.

(** X11: a method bound with [bind] and then passed to [subscribe] reaches
    the mediator as a function that runs with the instance as [this]
    whatever receiver the mediator calls it with. *)
Theorem bind_then_subscribe w self o n fs topic :
  heap w !! self = Some (CObject o) →
  rebindable self (object_get o n) →
  n ≠ "__mediator" →
  field w self "__mediator" ≠ VObj self →
  mediator_member w self "subscribe" = Some fs →
  ∃ w1 g,
    bind run self [n] w = Ok VUndefined w1 ∧
    field w1 self n = VFun g ∧
    (∀ r, this_context g r = VObj self) ∧
    calls (world_of (subscribe run self topic (field w1 self n) w1)) =
      calls w ++ [Call fs (field w self "__mediator") [topic; VFun g; VObj self]].
Proof.
  intros Hself Hn Hnm Hmed Hs.
  destruct (bind_run run [n] w self o Hself) as (o' & E & Hinh & Hother & Hnames).
  { intros m Hm. apply list_elem_of_singleton in Hm as ->. exact Hn. }
  destruct (Hnames n) as (f & g & Hf & Hg & Hres); [left|].
  set (w1 := set_heap (<[self := CObject o']> (heap w)) w) in *.
  assert (∀ k, k ≠ n → field w1 self k = field w self k) as Hfields.
  { intros k Hk. unfold field, w1.
    rewrite Hself, set_heap_heap, lookup_insert_eq.
    unfold object_get. rewrite Hinh, Hother; [done|].
    by intros ->%list_elem_of_singleton. }
  assert (field w1 self n = VFun g) as Hgn.
  { unfold field, w1. rewrite set_heap_heap, lookup_insert_eq.
    unfold object_get. by rewrite Hg. }
  assert (mediator_member w1 self "subscribe" = Some fs) as Hs1.
  { unfold mediator_member in *. rewrite Hfields by done.
    destruct (field w self "__mediator") as [| | | | |m|]; try done.
    assert (m ≠ self) by congruence.
    unfold field at 1. unfold w1. rewrite set_heap_heap, lookup_insert_ne by done.
    exact Hs. }
  exists w1, g. split; [exact E|]. split; [exact Hgn|]. split.
  - intros r. unfold this_context. rewrite Hres.
    apply rebindable_this. by rewrite <-Hf.
  - destruct (delegate_effect run w1 self "subscribe" fs
                [topic; field w1 self n; VObj self] Hs1) as (Hcalls & _).
    cbv zeta in Hcalls. unfold subscribe. rewrite Hcalls, Hgn.
    by rewrite Hfields.
Qed.

(** ** Construction followed by delegation *)

(** X13: a missing mediator goes unnoticed at construction and fails at the
    first use: the constructor returns normally without a third argument,
    and each delegating method then throws a [TypeError]. *)
Theorem missing_mediator_fails_at_first_use
    w args node attrs pargs topic callback data :
  arg 0 args = VObj node →
  heap w !! node = Some (CNode attrs) →
  allocated w (arg 1 args) →
  arg 2 args = VUndefined ∨ arg 2 args = VNull →
  ∃ self w',
    constructor toUpperCase jQuery proto defaultData args w = Ok self w' ∧
    publish run self pargs w' = Throw TypeError w' ∧
    subscribe run self topic callback w' = Throw TypeError w' ∧
    unsubscribe run self topic callback w' = Throw TypeError w' ∧
    scan run self data w' = Throw TypeError w'.
Proof.
  intros Harg Hnode Hdata Hnone.
  destruct (constructor_outcome toUpperCase jQuery proto defaultData
              w args node attrs Harg Hnode Hdata)
    as (self & t & ot & w' & E & _ & _ & _ & _ & _ & Hmed & _).
  assert (∀ name, mediator_member w' self name = None) as Hm.
  { intros name. unfold mediator_member. rewrite Hmed. by destruct Hnone as [->| ->]. }
  exists self, w'. split; [done|].
  repeat split; by apply delegate_throws.
Qed.

(** X14: the mediator an instance delegates to is the third argument of its
    constructor: [publish] on the constructed instance makes its one call to
    that object's [publish], with that object as receiver. *)
Theorem constructed_instance_publishes_to_its_mediator
    w args node attrs m f pargs :
  arg 0 args = VObj node →
  heap w !! node = Some (CNode attrs) →
  allocated w (arg 1 args) →
  arg 2 args = VObj m →
  field w m "publish" = VFun f →
  ∃ self w',
    constructor toUpperCase jQuery proto defaultData args w = Ok self w' ∧
    calls (world_of (publish run self pargs w')) =
      calls w ++ [Call f (VObj m) pargs].
Proof.
  intros Harg Hnode Hdata Hm Hf.
  destruct (constructor_outcome toUpperCase jQuery proto defaultData
              w args node attrs Harg Hnode Hdata)
    as (self & t & ot & w' & E & _ & _ & _ & _ & _ & Hmed & _ & _ & _ & Hframe & _ & Hc & _).
  assert (is_Some (heap w !! m)) as Hin.
  { unfold field in Hf. by destruct (heap w !! m). }
  assert (mediator_member w' self "publish" = Some f) as Hmm.
  { unfold mediator_member. rewrite Hmed, Hm. unfold field.
    rewrite Hframe by done. fold (field w m "publish"). by rewrite Hf. }
  exists self, w'. split; [done|].
  destruct (delegate_effect run w' self "publish" f pargs Hmm) as (Hcalls & _).
  cbv zeta in Hcalls. unfold publish. by rewrite Hcalls, Hmed, Hm, Hc.
Qed.

End Coverage.

(** ** Configuration keys: names without hyphen *)

Lemma replace_hyphens_plain (toUpperCase : N → list N) (s : list N) :
  forallb (fun c => negb (N.eqb c 45)) s = true → replace_hyphens toUpperCase s = s.
Proof.
  induction s as [|c s IH]; [done|]. cbn.
  intros [Hc Hs]%andb_prop. apply negb_true_iff in Hc. rewrite Hc.
  f_equal. by apply IH.
Qed.

(** X12: when what follows the five characters of [data-] holds no hyphen,
    the key of an attribute is that remainder as it is spelled, upper-case
    letters included, whatever the case mapping. *)
Theorem camelCaseName_of_plain_name (toUpperCase : N → list N) (name : jsstring) :
  no_hyphen (substr 5 name) = true →
  camelCaseName toUpperCase name = substr 5 name.
Proof.
  intros Hplain. unfold camelCaseName.
  rewrite replace_hyphens_plain by exact Hplain. apply jsstring_eta.
Qed.

(** ** The further properties at sample states *)

(** Construction without any argument. *)
Lemma constructor_on_nothing :
  ∃ w',
    constructor ascii_toUpperCase None ∅ None [] bare_world = Throw TypeError w' ∧
    timers w' = timers bare_world ∧
    ext w' = ext bare_world ∧
    ∀ l, is_Some (heap bare_world !! l) → heap w' !! l = heap bare_world !! l.
Proof.
  exact (constructor_without_element_throws ascii_toUpperCase None ∅ None bare_world []
           eq_refl (or_introl eq_refl)).
Defined.

(** The scenario: [this.data] is not the override object at location 2. *)
Lemma scenario_configuration_is_new :
  ∃ self t w',
    constructor ascii_toUpperCase None ∅ (Some scenario_defaults)
                [VObj 1%positive; VObj 2%positive; VNull] scenario_world = Ok self w' ∧
    field w' self "data" = VObj t ∧
    VObj 2%positive ≠ VObj t ∧
    heap w' !! 2%positive = heap scenario_world !! 2%positive.
Proof.
  destruct (constructor_builds_own_configuration ascii_toUpperCase None ∅
              (Some scenario_defaults)
              scenario_world [VObj 1%positive; VObj 2%positive; VNull]
              1%positive scenario_attrs eq_refl eq_refl)
    as (self & t & w' & E & _ & Hd & _ & Hne & Hframe & _).
  - eexists. reflexivity.
  - exists self, t, w'. split; [exact E|]. split; [exact Hd|]. split; [exact Hne|].
    apply Hframe. eexists. reflexivity.
Defined.

(** The scenario with [jQuery] defined. *)
Lemma scenario_with_jQuery :
  ∃ self w',
    constructor ascii_toUpperCase (Some sample_jQuery) ∅ None [VObj 1%positive]
                scenario_world = Ok self w' ∧
    field w' self "el" = VObj 1%positive ∧
    ∃ j, heap scenario_world !! j = None ∧
         own_field w' self "$el" = Some (VObj j) ∧
         heap w' !! j = Some (CObject (sample_jQuery (VObj 1%positive))).
Proof.
  exact (constructor_wraps_element_when_jQuery ascii_toUpperCase (Some sample_jQuery)
           ∅ None scenario_world [VObj 1%positive] 1%positive scenario_attrs
           eq_refl eq_refl I).
Defined.

(** The scenario with the number 7 as override. *)
Lemma scenario_with_number_override :
  ∃ self w',
    constructor ascii_toUpperCase None ∅ (Some scenario_defaults)
                [VObj 1%positive; VNum 7] scenario_world = Ok self w' ∧
    config w' self = overlay scenario_defaults (dom_data ascii_toUpperCase scenario_attrs).
Proof.
  exact (constructor_ignores_primitive_override ascii_toUpperCase None ∅
           (Some scenario_defaults)
           scenario_world [VObj 1%positive; VNum 7] 1%positive scenario_attrs
           eq_refl eq_refl eq_refl).
Defined.

(** The scenario constructed twice in a row on the same node and override. *)
Lemma scenario_twice :
  ∃ self1 w1 self2 w2,
    constructor ascii_toUpperCase None ∅ (Some scenario_defaults)
                [VObj 1%positive; VObj 2%positive] scenario_world = Ok self1 w1 ∧
    constructor ascii_toUpperCase None ∅ (Some scenario_defaults)
                [VObj 1%positive; VObj 2%positive] w1 = Ok self2 w2 ∧
    self1 ≠ self2 ∧
    field w2 self1 "data" ≠ field w2 self2 "data" ∧
    config w2 self1 = config w1 self1.
Proof.
  destruct (constructions_do_not_interfere ascii_toUpperCase None ∅
              (Some scenario_defaults)
              scenario_world [VObj 1%positive; VObj 2%positive]
              [VObj 1%positive; VObj 2%positive]
              1%positive 1%positive scenario_attrs scenario_attrs
              eq_refl eq_refl (ex_intro _ _ eq_refl)
              eq_refl eq_refl (ex_intro _ _ eq_refl))
    as (self1 & w1 & self2 & w2 & t1 & t2 & E1 & E2 & Hs & Hd1 & Hd2 & Ht & _ & Hc).
  exists self1, w1, self2, w2. split; [exact E1|]. split; [exact E2|].
  split; [exact Hs|]. split; [|exact Hc].
  rewrite Hd1, Hd2. intros [= Et]. exact (Ht Et).
Defined.

(** The node now says [data-count="9"] and has the new [data-added]: the
    count stays 5, the new key comes in. *)
Lemma changed_node_keeps_count :
  ∃ w',
    _configureData ascii_toUpperCase (Some scenario_defaults) 1%positive changed_world
      = Ok tt w' ∧
    config w' 1%positive !! "count" = Some (VNum 5) ∧
    config w' 1%positive !! "added" = Some (VStr "n").
Proof.
  destruct (configuration_is_sticky ascii_toUpperCase (Some scenario_defaults)
              changed_world 1%positive 2%positive changed_attrs scenario_override
              eq_refl eq_refl
              (ex_intro _ 3%positive (ex_intro _ _ (conj eq_refl (conj eq_refl eq_refl)))))
    as (w' & E & Hkeep & Hadd).
  exists w'. split; [exact E|]. split.
  - apply Hkeep; [done|reflexivity].
  - rewrite Hadd by reflexivity. vm_compute. reflexivity.
Defined.

(** An instance without mediator. *)
Lemma publish_without_mediator :
  publish idle_run 1%positive [VStr "ready"] methods_world
    = Throw TypeError methods_world ∧
  scan idle_run 1%positive VUndefined methods_world = Throw TypeError methods_world.
Proof.
  destruct (delegation_without_mediator_throws idle_run methods_world 1%positive
              [VStr "ready"] VUndefined VUndefined VUndefined eq_refl)
    as (Hp & _ & _ & Hc).
  split; [apply Hp|apply Hc]; reflexivity.
Defined.

(** A mediator whose [unsubscribe] answers [true] and whose [scan] throws. *)
Lemma answers_are_dropped :
  unsubscribe answering_run 1%positive (VStr "ready") (VFun (Plain "onReady"))
              mediated_world =
    Ok VUndefined
       (World (heap mediated_world) (ext mediated_world)
              [Call (Plain "mediator.unsubscribe") (VObj 2%positive)
                    [VStr "ready"; VFun (Plain "onReady"); VObj 1%positive]] []) ∧
  scan answering_run 1%positive (VNum 1) mediated_world =
    Throw (Thrown (VStr "busy"))
          (World (heap mediated_world) (ext mediated_world)
                 [Call (Plain "mediator.scan") (VObj 2%positive) [VNum 1]] []).
Proof.
  destruct (delegation_drops_result_and_passes_exception answering_run mediated_world
              1%positive (Plain "mediator.subscribe") (Plain "mediator.unsubscribe")
              (Plain "mediator.scan") (VStr "ready") (VFun (Plain "onReady")) (VNum 1)
              eq_refl eq_refl eq_refl)
    as (_ & _ & Hu & _ & _ & Hc).
  split; [exact (Hu _ _ _ eq_refl)|exact (Hc _ _ _ eq_refl)].
Defined.

(** [bind("onReady")] followed by [subscribe("ready", this.onReady)]. *)
Lemma bound_listener_subscribed :
  ∃ w1 g,
    bind mediator_run 1%positive ["onReady"] listening_world = Ok VUndefined w1 ∧
    field w1 1%positive "onReady" = VFun g ∧
    (∀ r, this_context g r = VObj 1%positive) ∧
    calls (world_of (subscribe mediator_run 1%positive (VStr "ready")
                               (field w1 1%positive "onReady") w1)) =
      [Call (Plain "mediator.subscribe") (VObj 2%positive)
            [VStr "ready"; VFun g; VObj 1%positive]].
Proof.
  refine (bind_then_subscribe mediator_run listening_world 1%positive listening_object
            "onReady" (Plain "mediator.subscribe") (VStr "ready")
            eq_refl _ _ _ eq_refl).
  - exists (Plain "onReady"). split; [reflexivity|left; reflexivity].
  - discriminate.
  - discriminate.
Defined.

(** [data-count] gives [count]. *)
Lemma plain_name_count : camelCaseName ascii_toUpperCase "data-count" = "count".
Proof. exact (camelCaseName_of_plain_name ascii_toUpperCase "data-count" eq_refl). Defined.

(** The scenario constructed without mediator, then [publish]. *)
Lemma scenario_without_mediator :
  ∃ self w',
    constructor ascii_toUpperCase None ∅ (Some scenario_defaults)
                [VObj 1%positive; VObj 2%positive] scenario_world = Ok self w' ∧
    publish idle_run self [VStr "ready"] w' = Throw TypeError w' ∧
    subscribe idle_run self (VStr "ready") VUndefined w' = Throw TypeError w' ∧
    unsubscribe idle_run self (VStr "ready") VUndefined w' = Throw TypeError w' ∧
    scan idle_run self VUndefined w' = Throw TypeError w'.
Proof.
  exact (missing_mediator_fails_at_first_use idle_run ascii_toUpperCase None ∅
           (Some scenario_defaults)
           scenario_world [VObj 1%positive; VObj 2%positive] 1%positive scenario_attrs
           [VStr "ready"] (VStr "ready") VUndefined VUndefined
           eq_refl eq_refl (ex_intro _ _ eq_refl) (or_introl eq_refl)).
Defined.

(** An instance constructed on the node at 3 with the mediator at 2. *)
Lemma constructed_then_publish :
  ∃ self w',
    constructor ascii_toUpperCase None ∅ None
                [VObj 3%positive; VUndefined; VObj 2%positive]
                mediated_world = Ok self w' ∧
    calls (world_of (publish mediator_run self [VStr "ready"; VNum 1] w')) =
      [Call (Plain "mediator.publish") (VObj 2%positive) [VStr "ready"; VNum 1]].
Proof.
  exact (constructed_instance_publishes_to_its_mediator mediator_run ascii_toUpperCase
           None ∅ None
           mediated_world [VObj 3%positive; VUndefined; VObj 2%positive]
           3%positive [] 2%positive (Plain "mediator.publish") [VStr "ready"; VNum 1]
           eq_refl eq_refl I eq_refl eq_refl).
Defined.

End Component.
